(** * Price-Volatility-Tracking pipelines: record store, URL processor, statistics

    A shallow embedding of
      - [src/pipelines/csv_storage.py]   (class CSVStorageManager),
      - [src/pipelines/url_processor.py] (class URLProcessor),
      - [src/pipelines/pipeline_orchestrator.py] (the statistics of
        PipelineOrchestrator and the results of a run),
      - [src/pipelines/image_downloader.py] ([_normalize_images_list]),
      - [src/__main__.py] (the choice of the URLs that still need
        enrichment),
    followed by the properties the specification states about them and by
    further properties of the code.

    Conventions of the embedding.
      - A Python [str] is a [string]; each character is read as the code
        point of the same number (0..255), and the string methods used by
        the source ([strip], [lower], [isdigit], [repr]) are written out for
        that range.
      - A Python value is a [pyval]: None, bool, int, str, list, dict.
        Floats are not part of the value model.
      - A record (a Python [dict] with [str] keys) is a [gmap string pyval];
        [d.get(k)] returns [VNone] both for an absent key and for a key
        bound to None, as in Python.
      - The store file is kept at the level of the [csv] module: a list of
        records, each a list of cells. Quoting and line endings are below
        this level.
      - The identity of a record, its [url], is a str whenever it is truthy,
        as the annotation [Dict[str, Dict]] of the rows in memory says.
      - What lies outside the sources is an explicit argument: the failures
        of the file system ([io_env]), the behaviour of the fetcher at each
        attempt ([fetch_env]), the constants of [Config]. Log lines are not
        modelled. *)

From Stdlib Require Import QArith Qpower Ascii.
From stdpp Require Import gmap strings list fin_maps pretty sorting.

Set Warnings "-register-all".
Close Scope Q_scope.

(** ** Python strings *)

Module PyStr.

Definition code (c : ascii) : nat := nat_of_ascii c.

Definition between (lo hi n : nat) : bool := (lo <=? n)%nat && (n <=? hi)%nat.

(** [str.isspace] on one character, code points below 256. *)
Definition is_space (c : ascii) : bool :=
  let n := code c in
  between 9 13 n || between 28 32 n || (n =? 133)%nat || (n =? 160)%nat.

Fixpoint lstrip (s : string) : string :=
  match s with
  | EmptyString => EmptyString
  | String c rest => if is_space c then lstrip rest else s
  end.

Definition rstrip (s : string) : string := String.rev (lstrip (String.rev s)).

(** [s.strip()] *)
Definition strip (s : string) : string := rstrip (lstrip s).

Definition lower_char (c : ascii) : ascii :=
  let n := code c in
  if between 65 90 n || (between 192 222 n && negb (n =? 215)%nat)
  then ascii_of_nat (n + 32) else c.

(** [s.lower()] *)
Fixpoint lower (s : string) : string :=
  match s with
  | EmptyString => EmptyString
  | String c rest => String (lower_char c) (lower rest)
  end.

Definition is_digit_char (c : ascii) : bool :=
  let n := code c in
  between 48 57 n || (n =? 178)%nat || (n =? 179)%nat || (n =? 185)%nat.

Fixpoint all_chars (p : ascii → bool) (s : string) : bool :=
  match s with
  | EmptyString => true
  | String c rest => p c && all_chars p rest
  end.

(** [s.isdigit()]: false on the empty string. *)
Definition isdigit (s : string) : bool :=
  match s with
  | EmptyString => false
  | _ => all_chars is_digit_char s
  end.

(** [s.startswith(p)] *)
Fixpoint startswith (p s : string) : bool :=
  match p, s with
  | EmptyString, _ => true
  | String a p', String b s' => if decide (a = b) then startswith p' s' else false
  | String _ _, EmptyString => false
  end.

(** [needle in hay] *)
Fixpoint contains (needle hay : string) : bool :=
  startswith needle hay ||
  match hay with
  | EmptyString => false
  | String _ rest => contains needle rest
  end.

(** [s[n:]] *)
Fixpoint drop (n : nat) (s : string) : string :=
  match n, s with
  | O, _ => s
  | S n', String _ rest => drop n' rest
  | S _, EmptyString => EmptyString
  end.

(** [sep.join(l)] *)
Fixpoint join (sep : string) (l : list string) : string :=
  match l with
  | [] => EmptyString
  | [x] => x
  | x :: rest => x +:+ sep +:+ join sep rest
  end.

Definition is_empty (s : string) : bool :=
  match s with EmptyString => true | _ => false end.

Definition hex_digit (n : nat) : ascii :=
  if (n <? 10)%nat then ascii_of_nat (48 + n) else ascii_of_nat (87 + n).

Definition hex2 (n : nat) : string :=
  String (hex_digit (n / 16)) (String (hex_digit (n mod 16)) EmptyString).

Definition squote : ascii := ascii_of_nat 39.
Definition dquote : ascii := ascii_of_nat 34.
Definition backslash : ascii := ascii_of_nat 92.

Definition of_char (c : ascii) : string := String c EmptyString.

(** [c.isprintable()] for code points below 256. *)
Definition is_printable (c : ascii) : bool :=
  let n := code c in
  between 32 126 n || (between 161 255 n && negb (n =? 173)%nat).

Definition repr_char (quote c : ascii) : string :=
  let n := code c in
  if decide (c = quote) then String backslash (of_char c)
  else if decide (c = backslash) then String backslash (of_char backslash)
  else if (n =? 9)%nat then String backslash "t"
  else if (n =? 10)%nat then String backslash "n"
  else if (n =? 13)%nat then String backslash "r"
  else if is_printable c then of_char c
  else String backslash ("x" +:+ hex2 n).

Fixpoint repr_body (quote : ascii) (s : string) : string :=
  match s with
  | EmptyString => EmptyString
  | String c rest => repr_char quote c +:+ repr_body quote rest
  end.

(** [repr(s)] of a str: single quotes, unless the text has a single quote
    and no double quote. *)
Definition repr (s : string) : string :=
  let quote :=
    if contains (of_char squote) s && negb (contains (of_char dquote) s)
    then dquote else squote in
  of_char quote +:+ repr_body quote s +:+ of_char quote.

(** The escaping of [json.dumps(..., ensure_ascii=False)]. *)
Definition json_char (c : ascii) : string :=
  let n := code c in
  if decide (c = dquote) then String backslash (of_char dquote)
  else if decide (c = backslash) then String backslash (of_char backslash)
  else if (n =? 8)%nat then String backslash "b"
  else if (n =? 9)%nat then String backslash "t"
  else if (n =? 10)%nat then String backslash "n"
  else if (n =? 12)%nat then String backslash "f"
  else if (n =? 13)%nat then String backslash "r"
  else if (n <? 32)%nat then String backslash ("u00" +:+ hex2 n)
  else of_char c.

Fixpoint json_body (s : string) : string :=
  match s with
  | EmptyString => EmptyString
  | String c rest => json_char c +:+ json_body rest
  end.

Definition json_string (s : string) : string :=
  of_char dquote +:+ json_body s +:+ of_char dquote.

End PyStr.

(** ** Python values *)

Inductive pyval : Type :=
| VNone
| VBool (b : bool)
| VInt (n : Z)
| VStr (s : string)
| VList (items : list pyval)
| VDict (entries : list (string * pyval)).

(** A record: a [dict] keyed by [str]. *)
Abbreviation record := (gmap string pyval).

(** [repr(v)] *)
Fixpoint py_repr (v : pyval) : string :=
  match v with
  | VNone => "None"
  | VBool true => "True"
  | VBool false => "False"
  | VInt n => pretty n
  | VStr s => PyStr.repr s
  | VList items => "[" +:+ PyStr.join ", " (map py_repr items) +:+ "]"
  | VDict entries =>
      "{" +:+ PyStr.join ", "
                (map (λ kv, let '(k, x) := kv in PyStr.repr k +:+ ": " +:+ py_repr x)
                     entries) +:+ "}"
  end.

(** [str(v)] *)
Definition py_str (v : pyval) : string :=
  match v with
  | VStr s => s
  | _ => py_repr v
  end.

(** [json.dumps(v, ensure_ascii=False)] *)
Fixpoint json_dumps (v : pyval) : string :=
  match v with
  | VNone => "null"
  | VBool true => "true"
  | VBool false => "false"
  | VInt n => pretty n
  | VStr s => PyStr.json_string s
  | VList items => "[" +:+ PyStr.join ", " (map json_dumps items) +:+ "]"
  | VDict entries =>
      "{" +:+ PyStr.join ", "
                (map (λ kv, let '(k, x) := kv in
                            PyStr.json_string k +:+ ": " +:+ json_dumps x)
                     entries) +:+ "}"
  end.

(** Truth value of a Python object, as [if v:] and [not v] test it. *)
Definition py_truthy (v : pyval) : bool :=
  match v with
  | VNone => false
  | VBool b => b
  | VInt n => negb (n =? 0)%Z
  | VStr s => negb (PyStr.is_empty s)
  | VList items => match items with [] => false | _ => true end
  | VDict entries => match entries with [] => false | _ => true end
  end.

Definition is_none (v : pyval) : bool :=
  match v with VNone => true | _ => false end.

(** [d.get(k)]: None when the key is absent. *)
Definition dict_get (d : record) (k : string) : pyval := default VNone (d !! k).

(** [d.get(k, dflt)] *)
Definition dict_get_or (d : record) (k : string) (dflt : pyval) : pyval :=
  default dflt (d !! k).

(** [k in d] *)
Definition dict_has (d : record) (k : string) : bool := bool_decide (is_Some (d !! k)).

(** ** CSVStorageManager: field names, emptiness, merge *)

(** [is_valid_fieldname]: keys are [str] here, so only the emptiness test
    and the [column_<digits>] test remain. *)
Definition is_valid_fieldname (fieldname : string) : bool :=
  if PyStr.is_empty fieldname then false
  else if PyStr.startswith "column_" fieldname && PyStr.isdigit (PyStr.drop 7 fieldname)
       then false
       else true.

(** [_is_empty_value] *)
Definition _is_empty_value (val : pyval) : bool :=
  match val with
  | VNone => true
  | VStr s =>
      PyStr.is_empty (PyStr.strip s) ||
      bool_decide (PyStr.lower (PyStr.strip s) ∈ ["none"; "null"; "false"])
  | VList items => match items with [] => true | _ => false end
  | _ => false
  end.

(** [_normalize_value_for_comparison] *)
Definition _normalize_value_for_comparison (val : pyval) : string :=
  match val with
  | VNone => EmptyString
  | VList items => PyStr.join ", " (map py_str items)
  | _ => py_str val
  end.

(** A field holds a non-empty value. *)
Definition holds_value (row : record) (key : string) : Prop :=
  ∃ v, row !! key = Some v ∧ _is_empty_value v = false.

(** [sorted(l, key=...)]: a stable insertion sort; [le a b] says that [a]
    may stand before [b]. *)
Fixpoint insert_sorted {A} (le : A → A → bool) (x : A) (l : list A) : list A :=
  match l with
  | [] => [x]
  | y :: rest => if le x y then x :: l else y :: insert_sorted le x rest
  end.

Definition py_sorted {A} (le : A → A → bool) (l : list A) : list A :=
  foldr (insert_sorted le) [] l.

(** Order of the tuples [(0, url)] and [(1, key)] used as sort keys. *)
Definition sort_key_le (a b : nat * string) : bool :=
  (a.1 <? b.1)%nat || ((a.1 =? b.1)%nat && String.leb a.2 b.2).

(** [sorted(s)] for a set of field names. *)
Definition sorted_fieldnames (s : gset string) : list string :=
  py_sorted String.leb (elements s).

(** The store file as the [csv] module sees it: the records of the file,
    each a list of cells. *)
Abbreviation csv_file := (list (list string)).

(** [existing_data]: the rows in memory, keyed by identity. *)
Abbreviation store := (gmap string (gmap string pyval)).

Definition header_indicators : list string :=
  ["url"; "price"; "title"; "location"; "area"; "bedrooms"; "bathrooms"].

Definition listing_url_pattern : string := "zapimoveis.com.br/imovel".

(** [_detect_has_headers] *)
Definition _detect_has_headers (first_line : string) : bool :=
  if PyStr.is_empty first_line then false
  else existsb (λ indicator, PyStr.contains indicator (PyStr.lower first_line))
               header_indicators.

(** The text of the first line of the file, from its first record: the cells
    joined by commas. *)
Definition first_line_of (file : csv_file) : string :=
  match file with
  | [] => EmptyString
  | cells :: _ => PyStr.strip (PyStr.join "," cells)
  end.

(** One row of [csv.DictReader]: the cells zipped with the field names, a
    later duplicate name winning, and None for the names past the last cell.
    Cells past the last name go under the key None, which no reader of the
    row looks up, and are left out. *)
Definition dictreader_row (fieldnames cells : list string) : record :=
  let zipped := foldl (λ d kv, <[kv.1 := VStr kv.2]> d) ∅ (zip fieldnames cells) in
  foldl (λ d k, <[k := VNone]> d) zipped (drop (length cells) fieldnames).

Fixpoint find_index {A} (p : A → bool) (l : list A) : option nat :=
  match l with
  | [] => None
  | x :: rest => if p x then Some 0%nat else S <$> find_index p rest
  end.

Definition is_listing_url (value : string) : bool :=
  PyStr.contains listing_url_pattern value.

(** The part of the file system a save touches: the store file (absent, or
    its records) and the sentinel lock marker next to it. *)
Record world : Type := World {
  store_file : option csv_file;
  lock_file : bool
}.

(** What the environment does during one call. [read_fails]: an I/O error
    inside [_read_existing_data]. [touch_error], [write_error],
    [unlink_error]: the exception raised by [lock_file.touch], by opening the
    store file for writing, by [lock_file.unlink], if any.
    [lock_released_after]: the poll at which another writer removes a marker
    that is present when the call starts. [max_polls]: the number of 0.1 s
    sleeps that fit into [max_wait]. *)
Record io_env : Type := IoEnv {
  read_fails : bool;
  touch_error : option string;
  write_error : option string;
  unlink_error : option string;
  lock_released_after : option nat;
  max_polls : nat
}.

(** How a call ends. *)
Inductive outcome : Type :=
| Returned
| Raised (e : string).

(** The exception of [error_msg[:100]] on a value that cannot be sliced, and
    the one of a dict lookup with an unhashable key. *)
Definition subscript_error : string := "TypeError: not subscriptable".
Definition unhashable_error : string := "TypeError: unhashable type".

Definition technical_keywords : list string :=
  ["browsertype.launch"; "xserver"; "display"; "xvfb"; "browser has been closed"].

(** [_is_technical_error] *)
Definition _is_technical_error (listing : record) : bool :=
  if bool_decide (dom listing = ({["error"; "url"]} : gset string))
     || ((size listing =? 2)%nat && dict_has listing "error" && dict_has listing "url")
  then
    let error_msg := dict_get_or listing "error" (VStr EmptyString) in
    if existsb (λ keyword, PyStr.contains keyword (PyStr.lower (py_str error_msg)))
               technical_keywords
    then true
    else (500 <? String.length (py_str error_msg))%nat
  else false.

(** [_acquire_lock]: poll the marker, sleeping 0.1 s between polls, until it
    is gone or the ceiling is reached. Returns the number of sleeps and
    whether the marker is still there. *)
Fixpoint acquire_loop (marker_at : nat → bool) (fuel polls : nat) : nat * bool :=
  if marker_at polls then
    match fuel with
    | O => (polls, true)
    | S fuel' => acquire_loop marker_at fuel' (S polls)
    end
  else (polls, false).

Definition _acquire_lock (io : io_env) (w : world) : world :=
  let marker_at polls :=
    lock_file w && match lock_released_after io with
                   | Some n => (polls <? n)%nat
                   | None => true
                   end in
  World (store_file w) (acquire_loop marker_at (max_polls io) 0).2.

(** The cell the csv writer prints for a value: nothing for None, [str]
    otherwise. *)
Definition cell_text (value : pyval) : string :=
  match value with
  | VNone => EmptyString
  | _ => py_str value
  end.

(** The sort key of one entry of [existing_data]. The url of a stored row is
    a str or None. *)
Definition sort_key (item : string * record) : nat * string :=
  let url := dict_get_or item.2 "url" (VStr EmptyString) in
  if py_truthy url then (0%nat, py_str url) else (1%nat, item.1).

(** [sorted(existing_data.items(), key=sort_key)]. In the rows the class
    builds, a truthy url of a row is the key of its entry, so distinct
    entries have distinct sort keys and the order in which the dict yields
    them does not show in the result. *)
Definition sorted_items (existing_data : store) : list (string * record) :=
  py_sorted (λ a b, sort_key_le (sort_key a) (sort_key b)) (map_to_list existing_data).

(** The methods of the class reach the field-name test through [self]; the
    test suite replaces it on an instance. The section variable stands for
    [self.is_valid_fieldname]; the class itself supplies
    [is_valid_fieldname]. *)
Section CSVStorageManager.

Variable valid_fieldname : string → bool.

Definition filter_valid_fieldnames (fieldnames : list string) : list string :=
  List.filter valid_fieldname fieldnames.

(** The valid keys of a dict, as a set. *)
Definition valid_keys (d : record) : gset string :=
  filter (λ k, valid_fieldname k = true) (dom d).

(** One turn of the loop of [_merge_listing_data] over
    [new_listing.items()]. The two normalised strings the source computes
    are used by no branch and are left out. *)
Definition merge_field (key : string) (new_value : pyval) (merged : record) : record :=
  if negb (valid_fieldname key) then merged
  else
    let existing_value := dict_get merged key in
    if negb (_is_empty_value new_value) then <[key := new_value]> merged
    else if negb (is_none existing_value) && negb (_is_empty_value existing_value)
         then merged
         else if is_none existing_value then <[key := VNone]> merged
              else merged.

(** [_merge_listing_data]: start from a copy of the existing row and visit
    every item of the new record. The items of a dict have distinct keys,
    so the result does not depend on the order of the visit. *)
Definition _merge_listing_data (existing_row new_listing : record) : record :=
  map_fold merge_field existing_row new_listing.

(** Records merged one after the other into the row of one identity. *)
Definition merge_all (row : record) (news : list record) : record :=
  foldl _merge_listing_data row news.

(** What the merge leaves under one key, from what was there and what the
    new record brings. *)
Definition merged_entry (key : string) (old new : option pyval) : option pyval :=
  match new with
  | None => old
  | Some new_value =>
      if negb (valid_fieldname key) then old
      else if negb (_is_empty_value new_value) then Some new_value
      else match old with
           | None => Some VNone
           | Some _ => old
           end
  end.

(** [convert_result_to_row], value by value. [json.dumps] does not fail on
    a [pyval], so the fallback to [str] is not reached. *)
Definition convert_value (value : pyval) : pyval :=
  match value with
  | VNone => VNone
  | VDict _ => VStr (json_dumps value)
  | VList [] => VNone
  | VList items => VStr (PyStr.join ", " (map py_str items))
  | _ => value
  end.

Definition convert_result_to_row (result : record) : record :=
  convert_value <$> filter (λ kv, valid_fieldname kv.1 = true) result.

(** [get_all_fieldnames] *)
Definition get_all_fieldnames (listings : list record) : list string :=
  sorted_fieldnames (foldl (λ fieldnames listing, fieldnames ∪ valid_keys listing) ∅ listings).

(** *** _read_existing_data *)

(** [value.strip() if value and value.strip() else None]; DictReader gives
    a str or None. *)
Definition header_cell (value : pyval) : pyval :=
  match value with
  | VStr s =>
      if negb (PyStr.is_empty s) && negb (PyStr.is_empty (PyStr.strip s))
      then VStr (PyStr.strip s) else VNone
  | _ => VNone
  end.

(** [row_copy] of one DictReader row. *)
Definition make_row_copy (existing_fieldnames : list string) (row : record) : record :=
  match existing_fieldnames with
  | _ :: _ =>
      foldl (λ row_copy fieldname,
               if valid_fieldname fieldname
               then <[fieldname := header_cell (dict_get_or row fieldname (VStr EmptyString))]>
                      row_copy
               else row_copy)
            ∅ existing_fieldnames
  | [] =>
      (λ value, match value with
                | VStr EmptyString => VNone
                | _ => value
                end) <$> filter (λ kv, valid_fieldname kv.1 = true) row
  end.

(** [is_empty_row] over [row_copy.values()] *)
Definition is_empty_row (row_copy : record) : bool :=
  forallb (λ kv, is_none kv.2 || PyStr.is_empty (PyStr.strip (py_str kv.2)))
          (map_to_list row_copy).

(** [row_copy.get('url', '').strip() if row_copy.get('url') else ''] *)
Definition row_copy_url (row_copy : record) : string :=
  match dict_get row_copy "url" with
  | VStr s => if PyStr.is_empty s then EmptyString else PyStr.strip s
  | _ => EmptyString
  end.

(** One turn of the loop over the DictReader. The state is
    [(existing_data, row_count)]. The search for a URL-like value walks
    [row_copy.items()] in insertion order, which is the order of
    [existing_fieldnames]. *)
Definition read_header_row (raw_fieldnames existing_fieldnames : list string)
    (st : store * nat) (cells : list string) : store * nat :=
  match cells with
  | [] => st
  | _ =>
      let '(existing_data, row_count) := st in
      let row_count := S row_count in
      let row_copy := make_row_copy existing_fieldnames (dictreader_row raw_fieldnames cells) in
      if is_empty_row row_copy then (existing_data, row_count)
      else
        let url := row_copy_url row_copy in
        if negb (PyStr.is_empty url) then (<[url := row_copy]> existing_data, row_count)
        else
          let url_like :=
            List.find (λ key, match row_copy !! key with
                              | Some (VStr value) => is_listing_url value
                              | _ => false
                              end) existing_fieldnames in
          match url_like with
          | Some key => (<[py_str (dict_get row_copy key) := row_copy]> existing_data, row_count)
          | None => (<["listing_" +:+ pretty row_count := row_copy]> existing_data, row_count)
          end
  end.

(** [url_column_index], from the first ten rows. *)
Definition find_url_column (rows : csv_file) : option nat :=
  foldr (λ row found, match find_index is_listing_url row with
                      | Some i => Some i
                      | None => found
                      end) None (take 10 rows).

(** One turn of the loop over the rows of a file without header. *)
Definition read_plain_row (url_column_index : option nat)
    (existing_data : store) (row : list string) : store :=
  if forallb (λ value, PyStr.is_empty value || PyStr.is_empty (PyStr.strip value)) row
  then existing_data
  else
    let row_dict : record :=
      list_to_map (imap (λ i value, ("column_" +:+ pretty i,
                                     if PyStr.is_empty value then VNone else VStr value))
                        row) in
    let url :=
      match url_column_index with
      | Some i => match row !! i with
                  | Some cell => PyStr.strip cell
                  | None => EmptyString
                  end
      | None => EmptyString
      end in
    let url :=
      if PyStr.is_empty url
      then match List.find is_listing_url row with
           | Some value => PyStr.strip value
           | None => EmptyString
           end
      else url in
    if negb (PyStr.is_empty url) then <[url := row_dict]> existing_data
    else <["listing_" +:+ pretty (S (size existing_data)) := row_dict]> existing_data.

(** [_read_existing_data]. [read_fails] stands for an exception inside its
    [try] block (an I/O error while the file is read), which the method
    turns into an empty result. *)
Definition _read_existing_data (read_fails : bool) (file : option csv_file)
  : store * list string :=
  match file with
  | None | Some [] => (∅, [])
  | Some ((raw_fieldnames :: data_rows) as rows) =>
      if read_fails then (∅, [])
      else if _detect_has_headers (first_line_of rows) then
        let existing_fieldnames := filter_valid_fieldnames raw_fieldnames in
        let existing_data :=
          (foldl (read_header_row raw_fieldnames existing_fieldnames) (∅, 0%nat) data_rows).1 in
        (existing_data, existing_fieldnames)
      else
        let existing_data := foldl (read_plain_row (find_url_column rows)) ∅ rows in
        let all_keys : gset string :=
          map_fold (λ _ listing_data keys, keys ∪ valid_keys listing_data) ∅ existing_data in
        (existing_data, sorted_fieldnames all_keys)
  end.

(** *** Writing the file *)

(** Field names of all the rows in memory. *)
Definition store_fieldnames (existing_data : store) : gset string :=
  map_fold (λ _ listing_data fieldnames, fieldnames ∪ valid_keys listing_data)
           ∅ existing_data.

(** One row under the DictWriter: converted, every missing field name
    filled with None, then printed cell by cell. The header holds every
    valid key of every row, so the writer finds no unknown key. *)
Definition row_cells (all_fieldnames : list string) (listing_data : record)
  : list string :=
  let row := convert_result_to_row listing_data in
  let row := foldl (λ row fieldname,
                      if dict_has row fieldname then row else <[fieldname := VNone]> row)
                   row all_fieldnames in
  map (λ fieldname, cell_text (dict_get_or row fieldname (VStr EmptyString))) all_fieldnames.

(** The records written: header, then the rows in sorted order. *)
Definition written_file (all_fieldnames : list string) (existing_data : store)
  : csv_file :=
  all_fieldnames :: map (λ item, row_cells all_fieldnames item.2) (sorted_items existing_data).

(** *** save_single_listing *)

(** The row of [listing_url] after the save: merged into the row that is
    there, or a copy of the record. *)
Definition upsert_listing (existing_data : store) (listing_url : string)
    (listing : record) : store :=
  match existing_data !! listing_url with
  | Some existing_row =>
      <[listing_url := _merge_listing_data existing_row listing]> existing_data
  | None => <[listing_url := listing]> existing_data
  end.

(** The [try] block. A truthy url that is not a str is outside the typed
    interface ([existing_data] is a [Dict[str, Dict]]); Python raises a
    TypeError at the membership test when it is a list or a dict, and the
    model gives that outcome to every such url. *)
Definition save_single_try (io : io_env) (w : world) (listing : record)
  : outcome * world :=
  match touch_error io with
  | Some e => (Raised e, w)
  | None =>
      let w := World (store_file w) true in
      let '(existing_data, existing_fieldnames) :=
        _read_existing_data (read_fails io) (store_file w) in
      match dict_get listing "url" with
      | VStr listing_url =>
          let existing_data := upsert_listing existing_data listing_url listing in
          let all_fieldnames :=
            sorted_fieldnames (store_fieldnames existing_data ∪ valid_keys listing) in
          match all_fieldnames with
          | [] => (Returned, w)
          | _ =>
              match write_error io with
              | Some e => (Raised e, w)
              | None =>
                  (Returned, World (Some (written_file all_fieldnames existing_data)) true)
              end
          end
      | _ => (Raised unhashable_error, w)
      end
  end.

(** The [finally] block: remove the marker if it is there; an error of the
    removal is logged and dropped. *)
Definition release_lock (io : io_env) (w : world) : world :=
  if lock_file w then
    match unlink_error io with
    | Some _ => w
    | None => World (store_file w) false
    end
  else w.

(** The three checks made before anything is touched: [Some out] when the
    call ends there. *)
Definition save_single_rejects (listing : record) : option outcome :=
  if bool_decide (listing = ∅) then Some Returned
  else if negb (py_truthy (dict_get listing "url")) then Some Returned
  else if _is_technical_error listing then
    match dict_get_or listing "error" (VStr EmptyString) with
    | VStr _ | VList _ => Some Returned
    | _ => Some (Raised subscript_error)
    end
  else None.

Definition save_single_listing (io : io_env) (w : world) (listing : record)
  : outcome * world :=
  match save_single_rejects listing with
  | Some out => (out, w)
  | None =>
      let w := _acquire_lock io w in
      let '(out, w) := save_single_try io w listing in
      (out, release_lock io w)
  end.

(** *** save_listings_batch *)

(** One turn of the loop over the batch; [inr e] when the turn raises, which
    is the case of a truthy url that is not a str (see [save_single_try]). *)
Definition batch_step (existing_data : store) (listing : record) : store + string :=
  let url := dict_get listing "url" in
  if negb (py_truthy url) then inl existing_data
  else match url with
       | VStr url =>
           match existing_data !! url with
           | Some existing_row =>
               inl (<[url := _merge_listing_data existing_row listing]> existing_data)
           | None => inl (<[url := listing]> existing_data)
           end
       | _ => inr unhashable_error
       end.

Fixpoint batch_loop (existing_data : store) (listings : list record) : store + string :=
  match listings with
  | [] => inl existing_data
  | listing :: rest =>
      match batch_step existing_data listing with
      | inl existing_data => batch_loop existing_data rest
      | inr e => inr e
      end
  end.

(** [save_listings_batch] takes no lock: only the store file matters. The
    sort key of a row without url is the key under which [existing_data]
    holds that very object, so the rows are sorted as entries. *)
Definition save_listings_batch (io : io_env) (file : option csv_file)
    (listings : list record) : outcome * option csv_file :=
  match listings with
  | [] => (Returned, file)
  | _ =>
      let '(existing_data, existing_fieldnames) :=
        _read_existing_data (read_fails io) file in
      match batch_loop existing_data listings with
      | inr e => (Raised e, file)
      | inl existing_data =>
          let all_fieldnames :=
            sorted_fieldnames (list_to_set existing_fieldnames
                                 ∪ store_fieldnames existing_data) in
          match all_fieldnames with
          | [] => (Returned, file)
          | _ =>
              let all_fieldnames := List.filter valid_fieldname all_fieldnames in
              match all_fieldnames with
              | [] => (Returned, file)
              | _ =>
                  match write_error io with
                  | Some e => (Raised e, file)
                  | None => (Returned, Some (written_file all_fieldnames existing_data))
                  end
              end
          end
      end
  end.

End CSVStorageManager.

(** The step that [save_single_listing] makes on the rows in memory, for a
    record that carries a url; a record without url leaves the rows alone. *)
Definition upsert_if_url (valid : string → bool) (existing_data : store)
    (listing : record) : store :=
  match dict_get listing "url" with
  | VStr url =>
      if PyStr.is_empty url then existing_data
      else upsert_listing valid existing_data url listing
  | _ => existing_data
  end.

(** A store file with one row. *)
Definition file_with_one_row : csv_file := [["price"; "url"]; ["100"; "A"]].
Definition world_with_one_row : world := World (Some file_with_one_row) false.

(** ** URLProcessor *)

(** The constants of [src.config.Config] the processor reads. The module is
    not part of the sources at hand; its values are parameters. Delays are
    exact rationals. *)
Record Config : Type := MkConfig {
  RETRY_DELAY : Q;
  RETRY_BACKOFF : Q;
  MAX_RETRIES : nat
}.

(** [calculate_retry_delay] *)
Definition calculate_retry_delay (cfg : Config) (attempt : nat) : Q :=
  (RETRY_DELAY cfg * RETRY_BACKOFF cfg ^ Z.of_nat attempt)%Q.

(** [is_blocked_error] *)
Definition is_blocked_error (result : record) : bool :=
  let error_str := py_str (dict_get_or result "error" (VStr EmptyString)) in
  PyStr.contains "403" error_str || PyStr.contains "429" error_str.

(** What [attempt_scrape] does on one call: it returns a value (a dict or
    None), or it raises an exception with the given text. *)
Inductive attempt_outcome : Type :=
| Yields (result : option record)
| Throws (message : string).

(** What the processor does to the outside, in order. *)
Inductive event : Type :=
| EvAttempt (attempt : nat)
| EvHandleBlocked (attempt : nat)
| EvSleep (delay : Q)
| EvCloseBrowser.

(** The environment of one [process_url]: the answer of the compliance
    gate, the behaviour of the fetcher at each attempt, whether the caller
    supplied a browser manager, and the exception raised by
    [BrowserManager.close], if any. *)
Record fetch_env : Type := FetchEnv {
  compliant : bool;
  fetcher : nat → attempt_outcome;
  browser_supplied : bool;
  close_error : option string
}.

(** How [process_url] ends. *)
Inductive url_outcome : Type :=
| UrlReturns (result : option record)
| UrlRaises (message : string).

(** [if result:] on an optional dict. *)
Definition result_truthy (result : option record) : bool :=
  match result with
  | Some r => negb (bool_decide (r = ∅))
  | None => false
  end.

Definition error_record (url message : string) : record :=
  <["url" := VStr url]> (<["error" := VStr message]> ∅).

(** [process_scrape_attempt]: [Some] result ends the retries, [None] asks
    for another attempt. *)
Definition process_scrape_attempt (cfg : Config) (fetch : nat → attempt_outcome)
    (url : string) (attempt max_retries : nat) : option record * list event :=
  match fetch attempt with
  | Yields result =>
      match result with
      | Some r =>
          if result_truthy result && negb (dict_has r "error")
          then (Some r, [EvAttempt attempt])
          else
            (None,
             [EvAttempt attempt]
               ++ (if result_truthy result && is_blocked_error r
                   then [EvHandleBlocked attempt] else [])
               ++ (if (attempt <? max_retries)%nat
                   then [EvSleep (calculate_retry_delay cfg attempt)] else []))
      | None =>
          (None,
           [EvAttempt attempt]
             ++ (if (attempt <? max_retries)%nat
                 then [EvSleep (calculate_retry_delay cfg attempt)] else []))
      end
  | Throws message =>
      if (max_retries <=? attempt)%nat
      then (Some (error_record url message), [EvAttempt attempt])
      else (None, [EvAttempt attempt; EvSleep (calculate_retry_delay cfg attempt)])
  end.

(** The [for attempt in range(max_retries + 1)] loop of [process_url], with
    [remaining] turns left, and the result after it. *)
Fixpoint retry_loop (cfg : Config) (fetch : nat → attempt_outcome) (url : string)
    (max_retries remaining attempt : nat) : record * list event :=
  match remaining with
  | O => (error_record url "Max retries exceeded", [])
  | S remaining' =>
      let '(result, events) := process_scrape_attempt cfg fetch url attempt max_retries in
      match result with
      | Some r => (r, events)
      | None =>
          let '(r, later) := retry_loop cfg fetch url max_retries remaining' (S attempt) in
          (r, events ++ later)
      end
  end.

(** [process_url] *)
Definition process_url (cfg : Config) (env : fetch_env) (url : string)
  : url_outcome * list event :=
  if negb (compliant env) then (UrlReturns None, [])
  else
    let max_retries := MAX_RETRIES cfg in
    let '(r, events) := retry_loop cfg (fetcher env) url max_retries (S max_retries) 0 in
    if browser_supplied env then (UrlReturns (Some r), events)
    else
      match close_error env with
      | Some message => (UrlRaises message, events ++ [EvCloseBrowser])
      | None => (UrlReturns (Some r), events ++ [EvCloseBrowser])
      end.

Definition count_attempts (events : list event) : nat :=
  length (List.filter (λ ev, match ev with EvAttempt _ => true | _ => false end) events).

(** ** PipelineOrchestrator: statistics *)

Record stats : Type := MkStats {
  total : nat;
  success : nat;
  failed : nat;
  blocked : nat;
  skipped : nat
}.

(** [len(v)]: None where Python raises a TypeError. *)
Definition py_len (v : pyval) : option nat :=
  match v with
  | VStr s => Some (String.length s)
  | VList items => Some (length items)
  | VDict entries => Some (length entries)
  | _ => None
  end.

Definition is_search_results (result : record) : bool :=
  match dict_get result "type" with
  | VStr t => bool_decide (t = "search_results") && dict_has result "listings"
  | _ => false
  end.

(** [_update_stats_from_result]: the statistics afterwards, or None when
    [len(listings)] raises (nothing has been counted at that point). *)
Definition _update_stats_from_result (st : stats) (result : option record) : option stats :=
  match result with
  | None => Some (MkStats (total st) (success st) (failed st) (blocked st) (S (skipped st)))
  | Some r =>
      if dict_has r "error" then
        let error_str := py_str (dict_get_or r "error" (VStr EmptyString)) in
        if PyStr.contains "403" error_str || PyStr.contains "429" error_str
        then Some (MkStats (total st) (success st) (failed st) (S (blocked st)) (skipped st))
        else Some (MkStats (total st) (success st) (S (failed st)) (blocked st) (skipped st))
      else if is_search_results r then
        match py_len (dict_get r "listings") with
        | Some n => Some (MkStats (total st) (success st + n) (failed st) (blocked st) (skipped st))
        | None => None
        end
      else Some (MkStats (total st) (S (success st)) (failed st) (blocked st) (skipped st))
  end.

(** What [asyncio.gather(..., return_exceptions=True)] hands back for one
    URL. *)
Inductive gathered : Type :=
| GatheredException (message : string)
| GatheredResult (result : option record).

(** One turn of the loop of [_process_urls_with_concurrency] over the
    gathered outcomes; None when the turn raises. *)
Definition tally_gathered (st : stats) (g : gathered) : option stats :=
  match g with
  | GatheredException _ =>
      Some (MkStats (total st) (success st) (S (failed st)) (blocked st) (skipped st))
  | GatheredResult (Some r) => _update_stats_from_result st (Some r)
  | GatheredResult None =>
      Some (MkStats (total st) (success st) (failed st) (blocked st) (S (skipped st)))
  end.

(** One turn of the loop of [_process_urls_with_single_browser]: an
    exception of the turn, also one of the statistics update, counts as a
    failure. *)
Definition tally_sequential (st : stats) (out : url_outcome) : stats :=
  let count_failed := MkStats (total st) (success st) (S (failed st)) (blocked st) (skipped st) in
  match out with
  | UrlRaises _ => count_failed
  | UrlReturns result =>
      if result_truthy result then
        match _update_stats_from_result st result with
        | Some st' => st'
        | None => count_failed
        end
      else MkStats (total st) (success st) (failed st) (blocked st) (S (skipped st))
  end.

(** The tally of all the gathered outcomes of a run. *)
Fixpoint tally_all_gathered (st : stats) (outcomes : list gathered) : option stats :=
  match outcomes with
  | [] => Some st
  | g :: rest =>
      match tally_gathered st g with
      | Some st' => tally_all_gathered st' rest
      | None => None
      end
  end.

(** Every counter of [a] is at most the one of [b]. *)
Definition stats_le (a b : stats) : Prop :=
  (total a ≤ total b ∧ success a ≤ success b ∧ failed a ≤ failed b
   ∧ blocked a ≤ blocked b ∧ skipped a ≤ skipped b)%nat.

(** ** Concrete inputs *)

(** A row of the store holds a non-empty value under [key]. *)
Definition store_holds (existing_data : store) (identity key : string) : Prop :=
  ∃ row, existing_data !! identity = Some row ∧ holds_value row key.

(** An environment in which nothing fails and no other writer holds the
    marker, and a file system without store file. *)
Definition io_quiet : io_env := IoEnv false None None None None 100.
Definition fresh_world : world := World None false.

(** [{url: "A", price: 100}] and [{url: "A", price: "", title: "T"}] *)
Definition record_with_price : record :=
  <["url" := VStr "A"]> (<["price" := VInt 100]> ∅).
Definition record_with_title : record :=
  <["url" := VStr "A"]> (<["price" := VStr EmptyString]> (<["title" := VStr "T"]> ∅)).

(** [{column_1: "x"}] and [{column_1: False}] *)
Definition record_with_synthetic_column : record := <["column_1" := VStr "x"]> ∅.
Definition record_with_synthetic_false : record := <["column_1" := VBool false]> ∅.

(** [{flag: False}], [{flag: "False"}] and [{flag: "yes"}] *)
Definition record_flag_false : record := <["flag" := VBool false]> ∅.
Definition record_flag_text : record := <["flag" := VStr "False"]> ∅.
Definition record_flag_yes : record := <["flag" := VStr "yes"]> ∅.

(** The technical failure of the test suite. *)
Definition record_launch_failure : record :=
  <["url" := VStr "https://example.com/listing"]>
    (<["error" := VStr "BrowserType.launch: Failed to launch browser"]> ∅).

(** An error text that names the launch of the browser with none of the
    keywords of [_is_technical_error]. *)
Definition record_launch_paraphrase : record :=
  <["url" := VStr "A"]> (<["error" := VStr "browser launch failed"]> ∅).

(** [{url: "https://example.com/listing", column_42: "invalid"}] *)
Definition record_with_column_42 : record :=
  <["url" := VStr "https://example.com/listing"]> (<["column_42" := VStr "invalid"]> ∅).

(** The error text names an infrastructure failure of the browser, the
    launch or the display: one of the keywords of [_is_technical_error]
    occurs in it, whatever the case. *)
Definition mentions_infrastructure_failure (text : string) : Prop :=
  ∃ keyword, keyword ∈ technical_keywords
             ∧ PyStr.contains keyword (PyStr.lower text) = true.

(** A technical-failure marker: the only keys are [error] and [url], and the
    error text names an infrastructure failure or is longer than 500
    characters. *)
Definition technical_failure_marker (listing : record) : Prop :=
  dom listing = ({["error"; "url"]} : gset string)
  ∧ (mentions_infrastructure_failure (py_str (dict_get listing "error"))
     ∨ (500 < String.length (py_str (dict_get listing "error")))%nat).

(** The two records of [test_save_single_listing_updates_existing]. *)
Definition listing_initial : record :=
  <["url" := VStr "https://example.com/listing"]>
    (<["price" := VInt 100000]> (<["title" := VStr "Initial Title"]> ∅)).
Definition listing_updated : record :=
  <["url" := VStr "https://example.com/listing"]>
    (<["price" := VInt 150000]>
       (<["title" := VStr "Updated Title"]> (<["area" := VInt 100]> ∅))).

(** Environments in which one step fails. *)
Definition io_touch_fails : io_env :=
  IoEnv false (Some "PermissionError: lock") None None None 100.
Definition io_write_fails : io_env :=
  IoEnv false None (Some "OSError: disk full") None None 100.
Definition io_unlink_fails : io_env :=
  IoEnv false None None (Some "PermissionError: Cannot remove") None 100.

(** An attempt succeeds when the fetcher returns a dict that is not empty
    and has no [error] key: the test [result and "error" not in result]. *)
Definition attempt_succeeds (o : attempt_outcome) : bool :=
  match o with
  | Yields (Some r) => negb (bool_decide (r = ∅)) && negb (dict_has r "error")
  | _ => false
  end.

(** Closing the browser does not fail: the caller supplied the browser, so
    [process_url] does not close it, or [close] raises nothing. *)
Definition close_completes (env : fetch_env) : Prop :=
  browser_supplied env = true ∨ close_error env = None.

(** Configurations and environments of the examples. *)
Definition cfg_zero_delay : Config := MkConfig 0 2 2.
Definition cfg_two_retries : Config := MkConfig 1 2 2.
Definition cfg_no_retry : Config := MkConfig 1 2 0.

Definition error_403 : record := <["error" := VStr "403 Forbidden"]> ∅.
Definition error_timeout : record := <["error" := VStr "Network timeout"]> ∅.
Definition search_result : record :=
  <["url" := VStr "S"]>
    (<["type" := VStr "search_results"]>
       (<["listings" := VList [VDict [("url", VStr "A")]; VDict [("url", VStr "B")]]]> ∅)).

(** The fetcher returns an empty dict at every attempt. *)
Definition env_empty_result : fetch_env :=
  FetchEnv true (λ _, Yields (Some ∅)) true None.
(** The fetcher succeeds at once; closing the browser fails. *)
Definition env_close_fails : fetch_env :=
  FetchEnv true (λ _, Yields (Some record_with_price)) false (Some "Target closed").
(** Blocked, then an exception, then a record. *)
Definition env_third_time : fetch_env :=
  FetchEnv true (λ n, match n with
                      | O => Yields (Some error_403)
                      | S O => Throws "Network error"
                      | _ => Yields (Some record_with_price)
                      end) false None.
(** An error result at every attempt. *)
Definition env_always_blocked : fetch_env :=
  FetchEnv true (λ _, Yields (Some error_403)) false None.
(** An exception at every attempt. *)
Definition env_always_throws : fetch_env :=
  FetchEnv true (λ _, Throws "Network error") false None.

Definition stats_zero : stats := MkStats 0 0 0 0 0.

(** Four gathered outcomes: blocked, an exception, a skip, a search page. *)
Definition gathered_sample : list gathered :=
  [GatheredResult (Some error_403); GatheredException "boom"; GatheredResult None;
   GatheredResult (Some search_result)].

(** * More of the code *)

(** ** CSVStorageManager: the page writer and the result writer *)

Definition not_iterable_error : string := "TypeError: object is not iterable".
Definition attribute_error : string := "AttributeError: object has no such attribute".

(** [csv.DictReader(f).fieldnames or []]: the first record of the file. *)
Definition reader_fieldnames (file : csv_file) : list string :=
  match file with
  | [] => []
  | fieldnames :: _ => fieldnames
  end.

(** What [flattened.extend(v)] appends: the items of a list, the characters
    of a str, the keys of a dict; other values cannot be iterated. *)
Definition extend_items (v : pyval) : list pyval + string :=
  match v with
  | VList items => inl items
  | VStr s => inl (map (λ c, VStr (String c EmptyString)) (String.list_ascii_of_string s))
  | VDict entries => inl (map (λ kv, VStr kv.1) entries)
  | _ => inr not_iterable_error
  end.

(** A dict value as a record. *)
Definition as_record (v : pyval) : option record :=
  match v with
  | VDict entries => Some (list_to_map entries)
  | _ => None
  end.

(** The loop of [save_results] that flattens the results: a search page is
    replaced by its listings, any other result is kept. *)
Fixpoint flatten_results (results : list record) : list (record + pyval) + string :=
  match results with
  | [] => inl []
  | result :: rest =>
      let here :=
        if is_search_results result
        then match extend_items (dict_get_or result "listings" (VList [])) with
             | inl items => inl (map inr items)
             | inr e => inr e
             end
        else inl [inl result] in
      match here, flatten_results rest with
      | inl items, inl later => inl (items ++ later)
      | inr e, _ => inr e
      | inl _, inr e => inr e
      end
  end.

(** The flattened results as dicts; [get_all_fieldnames] calls [keys] on
    each of them and raises on the first that is not a dict. *)
Fixpoint flattened_records (flattened : list (record + pyval)) : list record + string :=
  match flattened with
  | [] => inl []
  | item :: rest =>
      match (match item with inl r => Some r | inr v => as_record v end) with
      | None => inr attribute_error
      | Some r =>
          match flattened_records rest with
          | inl records => inl (r :: records)
          | inr e => inr e
          end
      end
  end.

Section CSVStorageWriters.

Variable valid_fieldname : string → bool.

(** [save_page_listings]. The header is written by [ensure_csv_headers] only
    when the file does not exist; the rows are appended. *)
Definition save_page_listings (io : io_env) (file : option csv_file)
    (page_listings : list record) : outcome * option csv_file :=
  match page_listings with
  | [] => (Returned, file)
  | _ =>
      let all_fieldnames := get_all_fieldnames valid_fieldname page_listings in
      let all_fieldnames :=
        match file with
        | Some records =>
            if read_fails io then all_fieldnames
            else
              let existing_fieldnames :=
                filter_valid_fieldnames valid_fieldname (reader_fieldnames records) in
              sorted_fieldnames (list_to_set all_fieldnames ∪ list_to_set existing_fieldnames)
        | None => all_fieldnames
        end in
      match write_error io with
      | Some e => (Raised e, file)
      | None =>
          let with_header :=
            match file with
            | Some records => records
            | None => [all_fieldnames]
            end in
          (Returned,
           Some (with_header ++ map (row_cells valid_fieldname all_fieldnames) page_listings))
      end
  end.

(** One row of [save_results]: converted and printed; a field name the row
    does not have prints as the empty cell. *)
Definition result_cells (fieldnames : list string) (result : record) : list string :=
  let row := convert_result_to_row valid_fieldname result in
  map (λ fieldname, cell_text (dict_get_or row fieldname (VStr EmptyString))) fieldnames.

(** [save_results] *)
Definition save_results (io : io_env) (file : option csv_file) (results : list record)
  : outcome * option csv_file :=
  match results with
  | [] => (Returned, file)
  | _ =>
      match flatten_results results with
      | inr e => (Raised e, file)
      | inl [] => (Returned, file)
      | inl flattened =>
          match flattened_records flattened with
          | inr e => (Raised e, file)
          | inl flattened_results =>
              let fieldnames := get_all_fieldnames valid_fieldname flattened_results in
              match write_error io with
              | Some e => (Raised e, file)
              | None =>
                  (Returned, Some (fieldnames :: map (result_cells fieldnames) flattened_results))
              end
          end
      end
  end.

End CSVStorageWriters.

(** ** ImageDownloader: the list of image URLs *)

(** [s.split(sep)] for a separator of one character. *)
Fixpoint split_on (sep : ascii) (s : string) : list string :=
  match s with
  | EmptyString => [EmptyString]
  | String c rest =>
      if decide (c = sep) then EmptyString :: split_on sep rest
      else match split_on sep rest with
           | piece :: pieces => String c piece :: pieces
           | [] => [String c EmptyString]
           end
  end.

Definition comma : ascii := ascii_of_nat 44.

(** [_normalize_images_list] *)
Definition _normalize_images_list (images : pyval) : list string :=
  if negb (py_truthy images) then []
  else match images with
       | VStr s =>
           List.filter (λ img, negb (PyStr.is_empty img))
                       (map PyStr.strip (split_on comma s))
       | VList items => map py_str (List.filter py_truthy items)
       | _ => []
       end.

(** ** The command line: which identities still need enrichment *)

Module Main.

(** [is_listing_url] of [__main__.py] *)
Definition is_listing_url (url : string) : bool :=
  if PyStr.is_empty url then false
  else
    let url := PyStr.lower (PyStr.strip url) in
    if negb (PyStr.contains "zapimoveis.com.br" url) then false
    else if negb (PyStr.contains "/imovel/" url) then false
    else negb (existsb (λ indicator, PyStr.contains indicator url)
                       ["/venda/"; "/aluguel/"; "/busca"; "/pesquisa"]).

(** Is one indicator filled? None when [strip] is called on None, the value
    DictReader gives to the fields of a short row. *)
Definition indicator_filled (row : record) (indicator : string) : option bool :=
  match dict_get_or row indicator (VStr EmptyString) with
  | VStr raw =>
      let value := PyStr.strip raw in
      Some (negb (PyStr.is_empty value)
            && negb (bool_decide (PyStr.lower value ∈ [EmptyString; "none"; "null"; "false"])))
  | _ => None
  end.

(** [_count_filled_indicators] *)
Fixpoint _count_filled_indicators (row : record) (indicators : list string) : option nat :=
  match indicators with
  | [] => Some 0%nat
  | indicator :: rest =>
      match indicator_filled row indicator, _count_filled_indicators row rest with
      | Some filled, Some n => Some (if filled then S n else n)
      | _, _ => None
      end
  end.

(** [_needs_deep_search] *)
Definition _needs_deep_search (row : record) (indicators : list string) : option bool :=
  match _count_filled_indicators row indicators with
  | Some filled_count => Some (filled_count <? 2)%nat
  | None => None
  end.

Definition deep_search_indicators : list string :=
  ["full_address"; "full_description"; "advertiser_name"; "advertiser_code"; "zap_code";
   "phone_partial"; "has_whatsapp"; "iptu"; "condo_fee"; "suites"; "floor_level"].

(** What one row of the DictReader adds to [missing_urls]: [Some None] for a
    row that is passed over, [None] when the row raises. *)
Definition row_missing_url (row : record) : option (option string) :=
  match dict_get_or row "url" (VStr EmptyString) with
  | VStr raw =>
      let url := PyStr.strip raw in
      if PyStr.is_empty url then Some None
      else if negb (is_listing_url url) then Some None
      else match _count_filled_indicators row deep_search_indicators with
           | Some filled_count => Some (if (filled_count <? 2)%nat then Some url else None)
           | None => None
           end
  | _ => None
  end.

Fixpoint missing_urls_of (fieldnames : list string) (rows : csv_file)
  : option (list string) :=
  match rows with
  | [] => Some []
  | [] :: rest => missing_urls_of fieldnames rest
  | cells :: rest =>
      match row_missing_url (dictreader_row fieldnames cells) with
      | None => None
      | Some found =>
          match missing_urls_of fieldnames rest with
          | None => None
          | Some later => Some (option_list found ++ later)
          end
      end
  end.

(** [get_missing_deep_search_urls]: any exception gives the empty list. *)
Definition get_missing_deep_search_urls (file : option csv_file) : list string :=
  match file with
  | None | Some [] => []
  | Some (fieldnames :: rows) => default [] (missing_urls_of fieldnames rows)
  end.

End Main.

(** ** URLProcessor: one scrape *)

(** [is_search_url] *)
Definition is_search_url (url : string) : bool :=
  existsb (λ indicator, PyStr.contains indicator url) ["/venda/"].

(** The switches of a processor: the mode and which callbacks it was given. *)
Record processor : Type := Processor {
  deep_search_only : bool;
  has_save_callback : bool;
  has_page_callback : bool;
  has_deep_search_callback : bool
}.

(** What the collaborators do during one [attempt_scrape]: whether the
    browser context is there, the exceptions of [initialize], of
    [create_page] and of the save callback, if any, and what the three calls
    of the extraction service give (the two search calls give a list). An
    exception of [page.close] is logged and dropped, so it has no part
    here. *)
Record scrape_env : Type := ScrapeEnv {
  context_ready : bool;
  initialize_error : option string;
  create_page_error : option string;
  listing_outcome : attempt_outcome;
  search_outcome : list pyval + string;
  deep_outcome : list pyval + string;
  save_error : option string
}.

(** Which callback [save_deep_scraped_listing] reaches. *)
Inductive save_target : Type :=
| ToDeepSearchCallback
| ToSaveCallback
| ToNothing.

Inductive scrape_event : Type :=
| EvInitialize
| EvCreatePage
| EvScrapeListing
| EvSave (result : record)
| EvScrapeSearch (with_page_callback : bool)
| EvDeepScrape (target : save_target)
| EvMarkSuccess
| EvClosePage.

Definition deep_save_target (p : processor) : save_target :=
  if has_deep_search_callback p then ToDeepSearchCallback
  else if has_save_callback p then ToSaveCallback
  else ToNothing.

(** The path of one listing inside the [try] block: scrape, save through the
    callback, report the proxy. *)
Definition scrape_listing_path (p : processor) (env : scrape_env)
  : attempt_outcome * list scrape_event :=
  match listing_outcome env with
  | Throws message => (Throws message, [EvScrapeListing])
  | Yields result =>
      match result with
      | Some r =>
          if result_truthy result && negb (dict_has r "error") && has_save_callback p
          then match save_error env with
               | Some message => (Throws message, [EvScrapeListing; EvSave r])
               | None => (Yields result, [EvScrapeListing; EvSave r; EvMarkSuccess])
               end
          else (Yields result, [EvScrapeListing; EvMarkSuccess])
      | None => (Yields None, [EvScrapeListing; EvMarkSuccess])
      end
  end.

Definition search_record (url : string) (listings : list pyval) : record :=
  <["url" := VStr url]>
    (<["listings" := VList listings]> (<["type" := VStr "search_results"]> ∅)).

(** The path of a search page inside the [try] block. *)
Definition scrape_search_path (p : processor) (env : scrape_env) (url : string)
  : attempt_outcome * list scrape_event :=
  match search_outcome env with
  | inr message => (Throws message, [EvScrapeSearch (has_page_callback p)])
  | inl [] =>
      (Yields (Some (search_record url [])),
       [EvScrapeSearch (has_page_callback p); EvMarkSuccess])
  | inl (_ :: _) =>
      match deep_outcome env with
      | inr message =>
          (Throws message,
           [EvScrapeSearch (has_page_callback p); EvDeepScrape (deep_save_target p)])
      | inl listings =>
          (Yields (Some (search_record url listings)),
           [EvScrapeSearch (has_page_callback p); EvDeepScrape (deep_save_target p);
            EvMarkSuccess])
      end
  end.

(** [attempt_scrape] *)
Definition attempt_scrape (p : processor) (env : scrape_env) (url : string)
  : attempt_outcome * list scrape_event :=
  let started :=
    if context_ready env then inl []
    else match initialize_error env with
         | Some message => inr (message, [EvInitialize])
         | None => inl [EvInitialize]
         end in
  match started with
  | inr (message, events) => (Throws message, events)
  | inl events =>
      match create_page_error env with
      | Some message => (Throws message, events ++ [EvCreatePage])
      | None =>
          let '(out, inside) :=
            if deep_search_only p then scrape_listing_path p env
            else if is_search_url url then scrape_search_path p env url
            else scrape_listing_path p env in
          (out, events ++ [EvCreatePage] ++ inside ++ [EvClosePage])
      end
  end.

Definition count_events (f : scrape_event → bool) (events : list scrape_event) : nat :=
  length (List.filter f events).

Definition is_save_event (ev : scrape_event) : bool :=
  match ev with EvSave _ => true | _ => false end.
Definition is_close_event (ev : scrape_event) : bool :=
  match ev with EvClosePage => true | _ => false end.
Definition is_create_event (ev : scrape_event) : bool :=
  match ev with EvCreatePage => true | _ => false end.
Definition is_mark_success_event (ev : scrape_event) : bool :=
  match ev with EvMarkSuccess => true | _ => false end.

(** The delays [process_url] slept, in order. *)
Definition sleeps_of (events : list event) : list Q :=
  omap (λ ev, match ev with EvSleep delay => Some delay | _ => None end) events.

(** The attempts after which the block handling ran, in order. *)
Definition blocked_attempts_of (events : list event) : list nat :=
  omap (λ ev, match ev with EvHandleBlocked attempt => Some attempt | _ => None end) events.

(** The block handling runs after an attempt whose result is a non-empty
    dict with an [error] field that [is_blocked_error] recognises. *)
Definition blocked_at (fetch : nat → attempt_outcome) (attempt : nat) : bool :=
  match fetch attempt with
  | Yields (Some r) =>
      negb (bool_decide (r = ∅)) && dict_has r "error" && is_blocked_error r
  | _ => false
  end.

(** ** PipelineOrchestrator: the results of a run *)

(** The loop of [_process_urls_with_concurrency] over the gathered outcomes,
    as far as [filtered_results] goes: an exception becomes an error record,
    None is dropped. *)
Definition gathered_result (url : string) (g : gathered) : option record :=
  match g with
  | GatheredException message => Some (error_record url message)
  | GatheredResult result => result
  end.

Definition filtered_results (urls : list string) (outcomes : list gathered) : list record :=
  omap (λ item, gathered_result item.1 item.2) (zip urls outcomes).

Definition counted (st : stats) : nat :=
  (success st + failed st + blocked st + skipped st)%nat.

Definition is_search_page (g : gathered) : bool :=
  match g with
  | GatheredResult (Some r) => negb (dict_has r "error") && is_search_results r
  | _ => false
  end.

(** * Properties *)

(** ** The model on the cases of the test suite *)

Example test_is_valid_fieldname :
  map is_valid_fieldname ["url"; "price"; "column_42"; "column_123"; EmptyString]
  = [true; true; false; false; false].
Proof. vm_compute. reflexivity. Qed.

Example test_save_single_listing_updates_existing :
  save_single_listing is_valid_fieldname io_quiet
    (save_single_listing is_valid_fieldname io_quiet fresh_world listing_initial).2
    listing_updated
  = (Returned,
     World (Some [["area"; "price"; "title"; "url"];
                  ["100"; "150000"; "Updated Title"; "https://example.com/listing"]])
           false).
Proof. vm_compute. reflexivity. Qed.

Example test_save_single_listing_skips_technical_errors :
  save_single_listing is_valid_fieldname io_quiet fresh_world record_launch_failure
  = (Returned, fresh_world).
Proof. vm_compute. reflexivity. Qed.

Example test_save_listings_batch :
  save_listings_batch is_valid_fieldname io_quiet None [record_with_price; record_with_title]
  = (Returned, Some [["price"; "title"; "url"]; ["100"; "T"; "A"]]).
Proof. vm_compute. reflexivity. Qed.

Example test_is_blocked_error :
  map (λ text, is_blocked_error (<["error" := VStr text]> ∅))
      ["403 Forbidden"; "429 Too Many Requests"; "500 Internal Server Error";
       "Network timeout"]
  = [true; true; false; false].
Proof. vm_compute. reflexivity. Qed.

(** An error text that names the failure in other words than the keywords
    is not a technical error for the code, and the record is saved. *)
Remark launch_paraphrase_is_saved :
  _is_technical_error record_launch_paraphrase = false
  ∧ store_file (save_single_listing is_valid_fieldname io_quiet fresh_world
                  record_launch_paraphrase).2
    = Some [["error"; "url"]; ["browser launch failed"; "A"]].
Proof. split; vm_compute; reflexivity. Qed.

(** ** The merge, key by key *)

Section MergeFacts.

Variable valid : string → bool.

Lemma merge_field_lookup (key : string) (new_value : pyval) (merged : record) (k : string) :
  merge_field valid key new_value merged !! k =
    if decide (k = key) then merged_entry valid key (merged !! key) (Some new_value)
    else merged !! k.
Proof.
  unfold merge_field, merged_entry, dict_get.
  destruct (decide (k = key)) as [->|Hk].
  - destruct (valid key); simpl; [|done].
    destruct (_is_empty_value new_value); simpl; [|by rewrite lookup_insert_eq].
    destruct (merged !! key) as [old|] eqn:Hold; simpl; [|by rewrite lookup_insert_eq].
    destruct old; simpl; rewrite ?lookup_insert_eq, ?Hold; try done;
      by repeat (case_match; simpl); rewrite ?Hold.
  - destruct (valid key); simpl; [|done].
    repeat (case_match; simpl); by rewrite ?lookup_insert_ne.
Qed.

(** The merged row, read at any key. *)
Lemma merge_lookup (existing_row new_listing : record) (k : string) :
  _merge_listing_data valid existing_row new_listing !! k =
    merged_entry valid k (existing_row !! k) (new_listing !! k).
Proof.
  unfold _merge_listing_data. revert k.
  apply (map_fold_weak_ind
           (λ (r : record) (m : record),
              ∀ k, r !! k = merged_entry valid k (existing_row !! k) (m !! k))).
  - intros k. by rewrite lookup_empty.
  - intros i x m r Hfresh IH k. rewrite merge_field_lookup.
    case_decide as Hk.
    + subst k. rewrite lookup_insert_eq, IH, Hfresh. done.
    + rewrite lookup_insert_ne by done. apply IH.
Qed.

Lemma merge_keeps_value (existing_row new_listing : record) (key : string) :
  holds_value existing_row key →
  holds_value (_merge_listing_data valid existing_row new_listing) key.
Proof.
  intros (v & Hv & Hne). unfold holds_value. rewrite merge_lookup, Hv.
  unfold merged_entry. destruct (new_listing !! key) as [w|]; [|eauto].
  destruct (valid key); simpl; [|eauto].
  destruct (_is_empty_value w) eqn:Hw; simpl; eauto.
Qed.

Lemma merge_all_keeps_value (row : record) (news : list record) (key : string) :
  holds_value row key → holds_value (merge_all valid row news) key.
Proof.
  revert row. induction news as [|new news IH]; intros row Hrow; [done|].
  simpl. apply IH. by apply merge_keeps_value.
Qed.

(** No key is lost by a merge. *)
Lemma merge_keeps_keys (existing_row new_listing : record) (key : string) :
  is_Some (existing_row !! key) →
  is_Some (_merge_listing_data valid existing_row new_listing !! key).
Proof.
  intros [v Hv]. rewrite merge_lookup, Hv. unfold merged_entry.
  destruct (new_listing !! key); [|eauto].
  destruct (negb (valid key)); [eauto|]. destruct (negb _); eauto.
Qed.

(** Every valid key of the new record is a key of the merged row. *)
Lemma merge_has_new_keys (existing_row new_listing : record) (key : string) :
  valid key = true → is_Some (new_listing !! key) →
  is_Some (_merge_listing_data valid existing_row new_listing !! key).
Proof.
  intros Hvalid [v Hv]. rewrite merge_lookup, Hv. unfold merged_entry.
  rewrite Hvalid. simpl. destruct (negb _); [eauto|].
  destruct (existing_row !! key); eauto.
Qed.

End MergeFacts.

(** ** Sorting and field-name sets *)

Lemma insert_sorted_perm {A} (le : A → A → bool) (x : A) (l : list A) :
  insert_sorted le x l ≡ₚ x :: l.
Proof.
  induction l as [|y l IH]; simpl; [done|].
  destruct (le x y); [done|]. rewrite IH. apply Permutation_swap.
Qed.

Lemma py_sorted_perm {A} (le : A → A → bool) (l : list A) : py_sorted le l ≡ₚ l.
Proof.
  induction l as [|x l IH]; simpl; [done|].
  rewrite insert_sorted_perm. by rewrite IH.
Qed.

Lemma elem_of_sorted_fieldnames (s : gset string) (f : string) :
  f ∈ sorted_fieldnames s ↔ f ∈ s.
Proof. unfold sorted_fieldnames. rewrite py_sorted_perm. apply elem_of_elements. Qed.

Lemma sorted_fieldnames_nil (s : gset string) : sorted_fieldnames s = [] ↔ s = ∅.
Proof.
  split.
  - intros Hnil. apply set_eq. intros f.
    rewrite <- elem_of_sorted_fieldnames, Hnil. set_solver.
  - intros ->. unfold sorted_fieldnames. by rewrite elements_empty.
Qed.

Section StoreFacts.

Variable valid : string → bool.

Lemma elem_of_valid_keys (d : record) (f : string) :
  f ∈ valid_keys valid d ↔ valid f = true ∧ is_Some (d !! f).
Proof. unfold valid_keys. rewrite elem_of_filter, elem_of_dom. done. Qed.

Lemma elem_of_store_fieldnames (existing_data : store) (f : string) :
  f ∈ store_fieldnames valid existing_data ↔
  ∃ key row, existing_data !! key = Some row ∧ f ∈ valid_keys valid row.
Proof.
  unfold store_fieldnames. revert f.
  apply (map_fold_weak_ind
           (λ (acc : gset string) (m : store),
              ∀ f, f ∈ acc ↔ ∃ key row, m !! key = Some row ∧ f ∈ valid_keys valid row)).
  - intros f. split; [set_solver|]. intros (key & row & Hlook & _).
    by rewrite lookup_empty in Hlook.
  - intros i x m acc Hfresh IH f. rewrite elem_of_union, IH. split.
    + intros [(key & row & Hlook & Hf)|Hf].
      * exists key, row. split; [|done].
        rewrite lookup_insert_ne; [done|]. intros ->. congruence.
      * exists i, x. by rewrite lookup_insert_eq.
    + intros (key & row & Hlook & Hf).
      destruct (decide (key = i)) as [->|Hne].
      * rewrite lookup_insert_eq in Hlook. right. congruence.
      * rewrite lookup_insert_ne in Hlook by done. left. eauto.
Qed.

Lemma store_fieldnames_valid (existing_data : store) (f : string) :
  f ∈ store_fieldnames valid existing_data → valid f = true.
Proof.
  rewrite elem_of_store_fieldnames. intros (key & row & _ & Hf).
  by apply elem_of_valid_keys in Hf as [? _].
Qed.

(** After the merge-or-insert step the row of the url holds every valid
    key of the record. *)
Lemma upsert_has_listing_keys (existing_data : store) (url : string) (listing : record) :
  valid_keys valid listing ⊆ store_fieldnames valid (upsert_listing valid existing_data url listing).
Proof.
  intros f Hf. apply elem_of_store_fieldnames. unfold upsert_listing.
  apply elem_of_valid_keys in Hf as [Hvalid Hsome].
  destruct (existing_data !! url) as [row|].
  - eexists url, _. rewrite lookup_insert_eq. split; [done|].
    apply elem_of_valid_keys. split; [done|]. by apply merge_has_new_keys.
  - exists url, listing. rewrite lookup_insert_eq. split; [done|].
    by apply elem_of_valid_keys.
Qed.

(** The step drops no field name of the rows that were there. *)
Lemma upsert_keeps_fieldnames (existing_data : store) (url : string) (listing : record) :
  store_fieldnames valid existing_data
    ⊆ store_fieldnames valid (upsert_listing valid existing_data url listing).
Proof.
  intros f. rewrite !elem_of_store_fieldnames. intros (key & row & Hlook & Hf).
  unfold upsert_listing. destruct (decide (key = url)) as [->|Hne].
  - rewrite Hlook. eexists url, _. rewrite lookup_insert_eq. split; [done|].
    apply elem_of_valid_keys in Hf as [Hvalid Hsome].
    apply elem_of_valid_keys. split; [done|]. by apply merge_keeps_keys.
  - exists key, row. split; [|done].
    destruct (existing_data !! url); by rewrite lookup_insert_ne.
Qed.

End StoreFacts.

(** ** Values held by the rows in memory *)

Section RowValues.

Variable valid : string → bool.

Lemma upsert_keeps_value (existing_data : store) (url : string) (listing : record)
    (identity key : string) :
  store_holds existing_data identity key →
  store_holds (upsert_listing valid existing_data url listing) identity key.
Proof.
  intros (row & Hrow & Hval). unfold store_holds, upsert_listing.
  destruct (decide (identity = url)) as [->|Hne].
  - rewrite Hrow. eexists. rewrite lookup_insert_eq. split; [done|].
    by apply merge_keeps_value.
  - exists row. split; [|done].
    destruct (existing_data !! url); by rewrite lookup_insert_ne.
Qed.

(** The turn of the batch loop is the merge-or-insert step of
    [save_single_listing], for a record whose url is a non-empty str. *)
Lemma batch_step_upsert (existing_data : store) (listing : record) (url : string) :
  dict_get listing "url" = VStr url → url ≠ EmptyString →
  batch_step valid existing_data listing
    = inl (upsert_listing valid existing_data url listing).
Proof.
  intros Hurl Hne. unfold batch_step, upsert_listing. rewrite Hurl. simpl.
  destruct url; [done|]. simpl. by destruct (existing_data !! _).
Qed.

Lemma batch_step_keeps_value (existing_data after : store) (listing : record)
    (identity key : string) :
  batch_step valid existing_data listing = inl after →
  store_holds existing_data identity key → store_holds after identity key.
Proof.
  unfold batch_step. intros Hstep Hheld.
  destruct (negb (py_truthy (dict_get listing "url"))); [by simplify_eq|].
  destruct (dict_get listing "url") as [| | |url| |]; try done.
  assert (after = upsert_listing valid existing_data url listing) as ->.
  { unfold upsert_listing. destruct (existing_data !! url); by simplify_eq. }
  by apply upsert_keeps_value.
Qed.

Lemma batch_loop_keeps_value (listings : list record) (existing_data after : store)
    (identity key : string) :
  batch_loop valid existing_data listings = inl after →
  store_holds existing_data identity key → store_holds after identity key.
Proof.
  revert existing_data. induction listings as [|listing rest IH]; simpl.
  - intros existing_data Heq. by simplify_eq.
  - intros existing_data Hloop Hheld.
    destruct (batch_step valid existing_data listing) as [next|] eqn:Hstep; [|done].
    eapply IH; [done|]. by eapply batch_step_keeps_value.
Qed.

End RowValues.

(** ** C1: data non-regression *)

(** C1. For every sequence of records merged for the same identity through
    [_merge_listing_data], a field that holds a non-empty value (in the sense
    of [_is_empty_value]) after some of the merges still holds a non-empty
    value after all the later ones. The same is true of every row of
    [existing_data] across the merge-or-insert step of [save_single_listing]
    and across the whole loop of [save_listings_batch]. *)
Theorem C1_merge_never_empties_a_field
    (row : record) (earlier later : list record) (key : string) :
  (holds_value (merge_all is_valid_fieldname row earlier) key →
   holds_value (merge_all is_valid_fieldname row (earlier ++ later)) key)
  ∧ (∀ (existing_data : store) (url identity : string) (listing : record),
       store_holds existing_data identity key →
       store_holds (upsert_listing is_valid_fieldname existing_data url listing) identity key)
  ∧ (∀ (existing_data after : store) (listings : list record) (identity : string),
       batch_loop is_valid_fieldname existing_data listings = inl after →
       store_holds existing_data identity key → store_holds after identity key).
Proof.
  split; [|split].
  - intros Hheld. unfold merge_all. rewrite foldl_app.
    by apply merge_all_keeps_value.
  - intros existing_data url identity listing. apply upsert_keeps_value.
  - intros existing_data after listings identity. apply batch_loop_keeps_value.
Qed.

(** C1 at work: the price 100 survives the merge of a record with an empty
    price, as a merge, as a step of [save_single_listing], and in a batch. *)
Lemma C1_witness :
  (holds_value (merge_all is_valid_fieldname record_with_price []) "price"
   ∧ holds_value (merge_all is_valid_fieldname record_with_price ([] ++ [record_with_title]))
       "price")
  ∧ (store_holds {["A" := record_with_price]} "A" "price"
     ∧ store_holds
         (upsert_listing is_valid_fieldname {["A" := record_with_price]} "A" record_with_title)
         "A" "price")
  ∧ (batch_loop is_valid_fieldname {["A" := record_with_price]} [record_with_title]
       = inl (upsert_listing is_valid_fieldname {["A" := record_with_price]} "A"
                record_with_title)
     ∧ store_holds
         (upsert_listing is_valid_fieldname {["A" := record_with_price]} "A" record_with_title)
         "A" "price").
Proof.
  assert (Hprice : holds_value record_with_price "price").
  { exists (VInt 100). split; vm_compute; reflexivity. }
  assert (Hstore : store_holds {["A" := record_with_price]} "A" "price").
  { exists record_with_price. split; [vm_compute; reflexivity | exact Hprice]. }
  pose proof (C1_merge_never_empties_a_field
                record_with_price [] [record_with_title] "price") as (Hseq & Hstep & Hloop).
  split; [|split].
  - split; [exact Hprice | exact (Hseq Hprice)].
  - split; [exact Hstore | exact (Hstep _ "A" "A" record_with_title Hstore)].
  - split; [vm_compute; reflexivity|].
    refine (Hloop _ _ [record_with_title] "A" _ Hstore). vm_compute. reflexivity.
Defined.

(** ** C2: the merge, field by field *)

(** C2, as stated, fails: the field [column_1] of the new record has the
    non-empty value ["x"], and the merged row has no such field. The loop of
    [_merge_listing_data] skips every key that is not a valid field name. *)
Lemma C2_counterexample_synthetic_column :
  record_with_synthetic_column !! "column_1" = Some (VStr "x")
  ∧ _is_empty_value (VStr "x") = false
  ∧ _merge_listing_data is_valid_fieldname ∅ record_with_synthetic_column !! "column_1" = None.
Proof. split; [|split]; vm_compute; reflexivity. Qed.

(** C2, amended. For every existing row and every new record,
    [_merge_listing_data] returns a row in which: each field of the new
    record with a valid field name and a non-empty new value takes the new
    value; each field whose new value is empty and whose existing value is
    non-empty keeps the existing value; a field with a valid name that is
    empty in both is present in the result, with an empty value; every field
    that the new record does not have is carried through unchanged; and a
    field of the new record whose name is not a valid field name leaves the
    row as it was under that name. On a fresh store, saving
    [{url: "A", price: 100}] and then [{url: "A", price: "", title: "T"}]
    leaves one row with price 100 and title T. *)
Theorem C2_merge_field_by_field (existing_row new_listing : record) (key : string) :
  let merged := _merge_listing_data is_valid_fieldname existing_row new_listing in
  (∀ v, is_valid_fieldname key = true → new_listing !! key = Some v →
        _is_empty_value v = false → merged !! key = Some v)
  ∧ (∀ v old, new_listing !! key = Some v → _is_empty_value v = true →
              existing_row !! key = Some old → _is_empty_value old = false →
              merged !! key = Some old)
  ∧ (∀ v, is_valid_fieldname key = true → new_listing !! key = Some v →
          _is_empty_value v = true → ¬ holds_value existing_row key →
          ∃ r, merged !! key = Some r ∧ _is_empty_value r = true)
  ∧ (new_listing !! key = None → merged !! key = existing_row !! key)
  ∧ (is_valid_fieldname key = false → merged !! key = existing_row !! key)
  ∧ store_file
      (save_single_listing is_valid_fieldname io_quiet
         (save_single_listing is_valid_fieldname io_quiet fresh_world record_with_price).2
         record_with_title).2
    = Some [["price"; "title"; "url"]; ["100"; "T"; "A"]].
Proof.
  intros merged. subst merged. split; [|split; [|split; [|split; [|split]]]].
  - intros v Hvalid Hnew Hv. rewrite merge_lookup, Hnew. unfold merged_entry.
    by rewrite Hvalid, Hv.
  - intros v old Hnew Hv Hold Hkeep. rewrite merge_lookup, Hnew, Hold. unfold merged_entry.
    rewrite Hv. by destruct (is_valid_fieldname key).
  - intros v Hvalid Hnew Hv Hnot. rewrite merge_lookup, Hnew. unfold merged_entry.
    rewrite Hvalid, Hv. simpl. destruct (existing_row !! key) as [old|] eqn:Hold.
    + exists old. split; [done|]. destruct (_is_empty_value old) eqn:Hempty; [done|].
      destruct Hnot. by exists old.
    + by exists VNone.
  - intros Hnew. by rewrite merge_lookup, Hnew.
  - intros Hinvalid. rewrite merge_lookup. unfold merged_entry.
    rewrite Hinvalid. by destruct (new_listing !! key).
  - vm_compute. reflexivity.
Qed.

(** C2 at work on the two records of the specification. *)
Lemma C2_witness :
  (* the non-empty title is taken *)
  (is_valid_fieldname "title" = true ∧ record_with_title !! "title" = Some (VStr "T")
   ∧ _is_empty_value (VStr "T") = false
   ∧ _merge_listing_data is_valid_fieldname record_with_price record_with_title !! "title"
     = Some (VStr "T"))
  (* the empty price does not replace 100 *)
  ∧ (record_with_title !! "price" = Some (VStr EmptyString)
     ∧ _is_empty_value (VStr EmptyString) = true
     ∧ record_with_price !! "price" = Some (VInt 100) ∧ _is_empty_value (VInt 100) = false
     ∧ _merge_listing_data is_valid_fieldname record_with_price record_with_title !! "price"
       = Some (VInt 100))
  (* empty in both: present, and empty *)
  ∧ (is_valid_fieldname "price" = true ∧ record_with_title !! "price" = Some (VStr EmptyString)
     ∧ ¬ holds_value (∅ : record) "price"
     ∧ ∃ r, _merge_listing_data is_valid_fieldname ∅ record_with_title !! "price" = Some r
            ∧ _is_empty_value r = true)
  (* a field of the existing row only *)
  ∧ (record_with_price !! "title" = None
     ∧ _merge_listing_data is_valid_fieldname record_with_title record_with_price !! "title"
       = record_with_title !! "title")
  (* a synthetic column is ignored *)
  ∧ (is_valid_fieldname "column_1" = false
     ∧ _merge_listing_data is_valid_fieldname record_with_price record_with_synthetic_column
         !! "column_1" = record_with_price !! "column_1").
Proof.
  assert (Hnone : ¬ holds_value (∅ : record) "price").
  { intros (v & Hv & _). vm_compute in Hv. discriminate Hv. }
  split; [|split; [|split; [|split]]].
  - pose proof (C2_merge_field_by_field record_with_price record_with_title "title")
      as (Htake & _).
    split; [vm_compute; reflexivity|]. split; [vm_compute; reflexivity|].
    split; [vm_compute; reflexivity|].
    apply Htake; vm_compute; reflexivity.
  - pose proof (C2_merge_field_by_field record_with_price record_with_title "price")
      as (_ & Hkeep & _).
    split; [vm_compute; reflexivity|]. split; [vm_compute; reflexivity|].
    split; [vm_compute; reflexivity|]. split; [vm_compute; reflexivity|].
    apply (Hkeep (VStr EmptyString) (VInt 100)); vm_compute; reflexivity.
  - pose proof (C2_merge_field_by_field ∅ record_with_title "price")
      as (_ & _ & Hboth & _).
    split; [vm_compute; reflexivity|]. split; [vm_compute; reflexivity|].
    split; [exact Hnone|].
    apply (Hboth (VStr EmptyString)); try (vm_compute; reflexivity). exact Hnone.
  - pose proof (C2_merge_field_by_field record_with_title record_with_price "title")
      as (_ & _ & _ & Hcarry & _).
    split; [vm_compute; reflexivity|]. apply Hcarry. vm_compute. reflexivity.
  - pose proof (C2_merge_field_by_field record_with_price record_with_synthetic_column
                  "column_1") as (_ & _ & _ & _ & Hskip & _).
    split; [vm_compute; reflexivity|]. apply Hskip. vm_compute. reflexivity.
Defined.

(** ** C9: what counts as empty *)

(** C9, as stated, fails: under the key [column_1] the new value [False]
    does not overwrite the existing value ["x"], because the merge skips
    keys that are not valid field names. *)
Lemma C9_counterexample_false_under_synthetic_column :
  record_with_synthetic_false !! "column_1" = Some (VBool false)
  ∧ _is_empty_value (VBool false) = false
  ∧ _merge_listing_data is_valid_fieldname record_with_synthetic_column
      record_with_synthetic_false !! "column_1" = Some (VStr "x").
Proof. split; [|split]; vm_compute; reflexivity. Qed.

(** C9, amended. [_is_empty_value] decides emptiness for None, strings and
    lists only: no bool, int or dict is empty. So a new value [False] or [0]
    under a valid field name overwrites whatever the existing row holds
    there, while the string "false", in any case and with blanks around it,
    is empty and leaves an existing value as it is. *)
Theorem C9_false_and_zero_are_values :
  (∀ b, _is_empty_value (VBool b) = false)
  ∧ (∀ n, _is_empty_value (VInt n) = false)
  ∧ (∀ entries, _is_empty_value (VDict entries) = false)
  ∧ (∀ (existing_row new_listing : record) (key : string) (v : pyval),
       is_valid_fieldname key = true → v = VBool false ∨ v = VInt 0 →
       new_listing !! key = Some v →
       _merge_listing_data is_valid_fieldname existing_row new_listing !! key = Some v)
  ∧ (∀ s, PyStr.lower (PyStr.strip s) = "false" → _is_empty_value (VStr s) = true)
  ∧ (∀ (existing_row new_listing : record) (key s : string) (old : pyval),
       PyStr.lower (PyStr.strip s) = "false" →
       new_listing !! key = Some (VStr s) → existing_row !! key = Some old →
       _merge_listing_data is_valid_fieldname existing_row new_listing !! key = Some old).
Proof.
  assert (Hfalse : ∀ s, PyStr.lower (PyStr.strip s) = "false" → _is_empty_value (VStr s) = true).
  { intros s Hs. unfold _is_empty_value. rewrite Hs. apply orb_true_r. }
  split; [done|]. split; [done|]. split; [done|]. split; [|split; [exact Hfalse|]].
  - intros existing_row new_listing key v Hvalid Hv Hnew.
    rewrite merge_lookup, Hnew. unfold merged_entry. rewrite Hvalid.
    by destruct Hv as [-> | ->].
  - intros existing_row new_listing key s old Hs Hnew Hold.
    rewrite merge_lookup, Hnew, Hold. unfold merged_entry.
    rewrite (Hfalse s Hs). by destruct (is_valid_fieldname key).
Qed.

(** C9 at work: [False] replaces "yes", the text "False" does not. *)
Lemma C9_witness :
  (is_valid_fieldname "flag" = true ∧ record_flag_false !! "flag" = Some (VBool false)
   ∧ _merge_listing_data is_valid_fieldname record_flag_yes record_flag_false !! "flag"
     = Some (VBool false))
  ∧ (PyStr.lower (PyStr.strip "False") = "false" ∧ _is_empty_value (VStr "False") = true)
  ∧ (record_flag_text !! "flag" = Some (VStr "False")
     ∧ record_flag_yes !! "flag" = Some (VStr "yes")
     ∧ _merge_listing_data is_valid_fieldname record_flag_yes record_flag_text !! "flag"
       = Some (VStr "yes")).
Proof.
  pose proof C9_false_and_zero_are_values as (_ & _ & _ & Hover & Htext & Hkeep).
  split; [|split].
  - split; [vm_compute; reflexivity|]. split; [vm_compute; reflexivity|].
    apply Hover; [vm_compute; reflexivity | left; reflexivity | vm_compute; reflexivity].
  - split; [vm_compute; reflexivity|]. apply Htext. vm_compute. reflexivity.
  - split; [vm_compute; reflexivity|]. split; [vm_compute; reflexivity|].
    apply (Hkeep _ _ "flag" "False"); vm_compute; reflexivity.
Defined.

(** ** C3: records that are not saved *)

Lemma technical_marker_detected (listing : record) :
  technical_failure_marker listing → _is_technical_error listing = true.
Proof.
  intros [Hdom Htext]. unfold _is_technical_error.
  rewrite (bool_decide_eq_true_2 _ Hdom). cbn [orb].
  assert (is_Some (listing !! "error")) as [e He].
  { apply elem_of_dom. rewrite Hdom. set_solver. }
  unfold dict_get in Htext. unfold dict_get_or. rewrite He in *.
  cbn [from_option id] in *.
  destruct (existsb (λ keyword, PyStr.contains keyword (PyStr.lower (py_str e)))
                    technical_keywords) eqn:Hkey; [done|].
  destruct Htext as [(keyword & Hin & Hhas)|Hlong].
  - assert (existsb (λ keyword, PyStr.contains keyword (PyStr.lower (py_str e)))
                    technical_keywords = true) as Hyes; [|congruence].
    apply existsb_exists. exists keyword. split; [|done]. by apply list_elem_of_In.
  - by apply Nat.ltb_lt.
Qed.

Lemma rejected_record_untouched (valid : string → bool) (io : io_env) (w : world)
    (listing : record) (out : outcome) :
  save_single_rejects listing = Some out →
  save_single_listing valid io w listing = (out, w).
Proof. intros Hrej. unfold save_single_listing. by rewrite Hrej. Qed.

(** C3. [save_single_listing] writes nothing, and leaves the store file and
    the lock marker as they were, when the incoming record is empty, has no
    [url] key, or is a technical-failure marker: its only keys are [error]
    and [url], and its error text names a browser, launch or display failure
    (one of the keywords of [_is_technical_error]) or is longer than 500
    characters. So the save attempt does not bring such a record into the
    store. *)
Theorem C3_rejected_records_are_not_written
    (valid : string → bool) (io : io_env) (w : world) (listing : record) :
  listing = ∅ ∨ listing !! "url" = None ∨ technical_failure_marker listing →
  (save_single_listing valid io w listing).2 = w.
Proof.
  intros Hcase.
  assert (is_Some (save_single_rejects listing)) as [out Hout].
  { unfold save_single_rejects.
    destruct (bool_decide (listing = ∅)) eqn:Hempty; [eauto|].
    destruct (negb (py_truthy (dict_get listing "url"))) eqn:Hurl; [eauto|].
    destruct Hcase as [->|[Hnone|Hmarker]].
    - by rewrite bool_decide_eq_true_2 in Hempty.
    - unfold dict_get in Hurl. by rewrite Hnone in Hurl.
    - rewrite (technical_marker_detected _ Hmarker). by repeat case_match. }
  by rewrite (rejected_record_untouched valid io w listing out Hout).
Qed.

(** C3 at work: the launch failure of the test suite, the empty record and a
    record without url leave a fresh store as it is. *)
Lemma C3_witness :
  (technical_failure_marker record_launch_failure
   ∧ (save_single_listing is_valid_fieldname io_quiet fresh_world record_launch_failure).2
     = fresh_world)
  ∧ ((∅ : record) = ∅
     ∧ (save_single_listing is_valid_fieldname io_quiet fresh_world ∅).2 = fresh_world)
  ∧ (record_flag_yes !! "url" = None
     ∧ (save_single_listing is_valid_fieldname io_quiet fresh_world record_flag_yes).2
       = fresh_world).
Proof.
  assert (Hmarker : technical_failure_marker record_launch_failure).
  { split; [vm_compute; reflexivity|]. left. exists "browsertype.launch".
    split; [apply list_elem_of_here | vm_compute; reflexivity]. }
  split; [|split].
  - split; [exact Hmarker|].
    apply C3_rejected_records_are_not_written. right. right. exact Hmarker.
  - split; [reflexivity|]. apply C3_rejected_records_are_not_written. left. reflexivity.
  - split; [vm_compute; reflexivity|].
    apply C3_rejected_records_are_not_written. right. left. vm_compute. reflexivity.
Defined.

(** ** The store file across one save *)

Section SaveFacts.

Variable valid : string → bool.

Lemma release_lock_store_file (io : io_env) (w : world) :
  store_file (release_lock io w) = store_file w.
Proof. unfold release_lock. by repeat case_match. Qed.

(** The marker is gone after the cleanup, unless its removal fails. *)
Lemma release_lock_removes (io : io_env) (w : world) :
  unlink_error io = None → lock_file (release_lock io w) = false.
Proof.
  intros Hunlink. unfold release_lock. rewrite Hunlink.
  by destruct (lock_file w) eqn:Hlock.
Qed.

Lemma sorted_union_valid (existing_data : store) (listing : record) :
  Forall (λ f, valid f = true)
         (sorted_fieldnames (store_fieldnames valid existing_data ∪ valid_keys valid listing)).
Proof.
  apply Forall_forall. intros f Hf.
  apply elem_of_sorted_fieldnames, elem_of_union in Hf as [Hf|Hf].
  - by eapply store_fieldnames_valid.
  - by apply elem_of_valid_keys in Hf as [? _].
Qed.

(** What the [try] block leaves in the store file: what was there, or a
    file written from the rows after the merge-or-insert step, under a
    header that is not empty. *)
Lemma save_single_try_file (io : io_env) (w : world) (listing : record) :
  store_file (save_single_try valid io w listing).2 = store_file w
  ∨ ∃ url,
      dict_get listing "url" = VStr url
      ∧ let existing_data :=
          upsert_listing valid
            (_read_existing_data valid (read_fails io) (store_file w)).1 url listing in
        let all_fieldnames :=
          sorted_fieldnames (store_fieldnames valid existing_data ∪ valid_keys valid listing) in
        all_fieldnames ≠ []
        ∧ save_single_try valid io w listing
          = (Returned, World (Some (written_file valid all_fieldnames existing_data)) true).
Proof.
  unfold save_single_try.
  destruct (touch_error io); [by left|]. simpl.
  destruct (_read_existing_data valid (read_fails io) (store_file w))
    as [snapshot fields] eqn:Hread.
  destruct (dict_get listing "url") as [| | |url| |]; try by left.
  simpl.
  destruct (sorted_fieldnames _) as [|name names] eqn:Hnames; [by left|].
  destruct (write_error io); [by left|].
  right. exists url. split; [done|]. simpl. rewrite Hnames. done.
Qed.

End SaveFacts.

(** ** C10: no header without a valid field name *)

(** C10. If, after the incoming record has been merged with the loaded
    rows, no valid field name is found among the keys of the rows and of the
    record, [save_single_listing] returns without writing and the store file
    is what it was. A save that changes the store file writes a header that
    is not empty and holds valid field names only, so never one made of
    [column_<digits>] names. ([valid] is the test behind
    [self.is_valid_fieldname].) *)
Theorem C10_no_valid_fieldname_no_write
    (valid : string → bool) (io : io_env) (w : world) (listing : record) :
  (∀ (url : string) (snapshot : store) (fields : list string),
     save_single_rejects listing = None →
     touch_error io = None →
     dict_get listing "url" = VStr url →
     _read_existing_data valid (read_fails io) (store_file w) = (snapshot, fields) →
     store_fieldnames valid (upsert_listing valid snapshot url listing)
       ∪ valid_keys valid listing = ∅ →
     (save_single_listing valid io w listing).1 = Returned
     ∧ store_file (save_single_listing valid io w listing).2 = store_file w)
  ∧ (store_file (save_single_listing valid io w listing).2 = store_file w
     ∨ ∃ header rows,
         store_file (save_single_listing valid io w listing).2 = Some (header :: rows)
         ∧ header ≠ [] ∧ Forall (λ f, valid f = true) header).
Proof.
  split.
  - intros url snapshot fields Hrej Htouch Hurl Hread Hnone.
    unfold save_single_listing. rewrite Hrej. unfold save_single_try.
    rewrite Htouch. simpl. rewrite Hread, Hurl. simpl.
    rewrite Hnone. unfold sorted_fieldnames. rewrite elements_empty. simpl.
    split; [done|]. by rewrite release_lock_store_file.
  - unfold save_single_listing.
    destruct (save_single_rejects listing); [by left|].
    destruct (save_single_try valid io (_acquire_lock io w) listing) as [out w'] eqn:Htry.
    cbn [snd]. rewrite release_lock_store_file.
    pose proof (save_single_try_file valid io (_acquire_lock io w) listing) as Hfile.
    rewrite Htry in Hfile. simpl in Hfile.
    destruct Hfile as [Hsame|(url & Hurl & Hnames & Heq)]; [by left|].
    right. simplify_eq. simpl. eexists _, _. split; [done|]. split; [done|].
    apply sorted_union_valid.
Qed.

(** C10 at work, as in the test suite: with a field-name test that accepts
    nothing, the save of a record returns and writes no file. *)
Lemma C10_witness :
  (save_single_rejects record_with_column_42 = None
   ∧ touch_error io_quiet = None
   ∧ dict_get record_with_column_42 "url" = VStr "https://example.com/listing"
   ∧ _read_existing_data (λ _, false) (read_fails io_quiet) (store_file fresh_world) = (∅, [])
   ∧ store_fieldnames (λ _, false)
       (upsert_listing (λ _, false) ∅ "https://example.com/listing" record_with_column_42)
       ∪ valid_keys (λ _, false) record_with_column_42 = ∅)
  ∧ (save_single_listing (λ _, false) io_quiet fresh_world record_with_column_42).1 = Returned
  ∧ store_file (save_single_listing (λ _, false) io_quiet fresh_world record_with_column_42).2
    = store_file fresh_world.
Proof.
  assert (Hrej : save_single_rejects record_with_column_42 = None)
    by (vm_compute; reflexivity).
  assert (Hurl : dict_get record_with_column_42 "url" = VStr "https://example.com/listing")
    by (vm_compute; reflexivity).
  assert (Hread : _read_existing_data (λ _, false) (read_fails io_quiet)
                    (store_file fresh_world) = (∅, []))
    by (vm_compute; reflexivity).
  assert (Hnone : store_fieldnames (λ _, false)
                    (upsert_listing (λ _, false) ∅ "https://example.com/listing"
                       record_with_column_42)
                    ∪ valid_keys (λ _, false) record_with_column_42 = ∅)
    by (vm_compute; reflexivity).
  split; [by repeat split|].
  exact (proj1 (C10_no_valid_fieldname_no_write (λ _, false) io_quiet fresh_world
                  record_with_column_42)
           "https://example.com/listing" ∅ [] Hrej eq_refl Hurl Hread Hnone).
Defined.

(** ** C5: the lock marker and the errors of a save *)

Lemma url_makes_a_header (valid : string → bool) (existing_data : store)
    (listing : record) (url : string) :
  dict_get listing "url" = VStr url → valid "url" = true →
  sorted_fieldnames (store_fieldnames valid existing_data ∪ valid_keys valid listing) ≠ [].
Proof.
  intros Hurl Hvalid Hnil. apply sorted_fieldnames_nil in Hnil.
  apply (not_elem_of_empty (C:=gset string) "url"). rewrite <- Hnil.
  apply elem_of_union_r, elem_of_valid_keys. split; [done|].
  unfold dict_get in Hurl. destruct (listing !! "url"); [eauto|done].
Qed.

(** C5. For every call of [save_single_listing] that passes the rejection
    checks, the call ends as its [try] block ends: an exception raised there
    (by creating the marker, by rewriting the file) is the exception of the
    call, and the store file is what the block left. The final step removes
    the marker whatever the block did; when the removal itself fails the
    error is dropped and the marker stays. *)
Theorem C5_lock_removed_and_errors_propagate
    (valid : string → bool) (io : io_env) (w : world) (listing : record) :
  save_single_rejects listing = None →
  let body := save_single_try valid io (_acquire_lock io w) listing in
  let call := save_single_listing valid io w listing in
  call.1 = body.1
  ∧ store_file call.2 = store_file body.2
  ∧ (unlink_error io = None → lock_file call.2 = false)
  ∧ (∀ e, unlink_error io = Some e → lock_file call.2 = lock_file body.2)
  ∧ (∀ e, touch_error io = Some e → call.1 = Raised e)
  ∧ (∀ e url, touch_error io = None → write_error io = Some e →
              dict_get listing "url" = VStr url → valid "url" = true →
              call.1 = Raised e).
Proof.
  intros Hrej body call. subst body call. unfold save_single_listing. rewrite Hrej.
  destruct (save_single_try valid io (_acquire_lock io w) listing) as [out w'] eqn:Htry.
  cbn [fst snd].
  split; [done|]. split; [apply release_lock_store_file|].
  split; [apply release_lock_removes|]. split; [|split].
  - intros e Hunlink. unfold release_lock. rewrite Hunlink.
    by destruct (lock_file w') eqn:Hlock; simpl; rewrite ?Hlock.
  - intros e Htouch. unfold save_single_try in Htry. rewrite Htouch in Htry. by simplify_eq.
  - intros e url Htouch Hwrite Hurl Hvalid. unfold save_single_try in Htry.
    rewrite Htouch, Hwrite, Hurl in Htry. simpl in Htry.
    destruct (_read_existing_data valid (read_fails io) (store_file w))
      as [snapshot fields].
    pose proof (url_makes_a_header valid (upsert_listing valid snapshot url listing)
                  listing url Hurl Hvalid) as Hheader.
    destruct (sorted_fieldnames _); [done|]. by simplify_eq.
Qed.

(** C5 at work: a save in which nothing fails, one in which the marker cannot
    be removed, one in which it cannot be created, one in which the file
    cannot be rewritten. *)
Lemma C5_witness :
  save_single_rejects record_with_price = None
  ∧ (unlink_error io_quiet = None
     ∧ lock_file (save_single_listing is_valid_fieldname io_quiet fresh_world
                    record_with_price).2 = false)
  ∧ (unlink_error io_unlink_fails = Some "PermissionError: Cannot remove"
     ∧ (save_single_listing is_valid_fieldname io_unlink_fails fresh_world
          record_with_price).1 = Returned
     ∧ lock_file (save_single_listing is_valid_fieldname io_unlink_fails fresh_world
                    record_with_price).2 = true)
  ∧ (touch_error io_touch_fails = Some "PermissionError: lock"
     ∧ unlink_error io_touch_fails = None
     ∧ (save_single_listing is_valid_fieldname io_touch_fails fresh_world
          record_with_price).1 = Raised "PermissionError: lock"
     ∧ lock_file (save_single_listing is_valid_fieldname io_touch_fails fresh_world
                    record_with_price).2 = false)
  ∧ (touch_error io_write_fails = None ∧ write_error io_write_fails = Some "OSError: disk full"
     ∧ dict_get record_with_price "url" = VStr "A" ∧ is_valid_fieldname "url" = true
     ∧ (save_single_listing is_valid_fieldname io_write_fails fresh_world
          record_with_price).1 = Raised "OSError: disk full"
     ∧ lock_file (save_single_listing is_valid_fieldname io_write_fails fresh_world
                    record_with_price).2 = false).
Proof.
  assert (Hrej : save_single_rejects record_with_price = None) by (vm_compute; reflexivity).
  assert (Hurl : dict_get record_with_price "url" = VStr "A") by (vm_compute; reflexivity).
  assert (Hvalid : is_valid_fieldname "url" = true) by (vm_compute; reflexivity).
  split; [exact Hrej|]. split; [|split; [|split]].
  - pose proof (C5_lock_removed_and_errors_propagate is_valid_fieldname io_quiet
                  fresh_world record_with_price Hrej) as (_ & _ & Hgone & _).
    split; [reflexivity | exact (Hgone eq_refl)].
  - pose proof (C5_lock_removed_and_errors_propagate is_valid_fieldname io_unlink_fails
                  fresh_world record_with_price Hrej) as (Hout & _ & _ & Hstay & _).
    split; [reflexivity|]. split.
    + rewrite Hout. vm_compute. reflexivity.
    + rewrite (Hstay _ eq_refl). vm_compute. reflexivity.
  - pose proof (C5_lock_removed_and_errors_propagate is_valid_fieldname io_touch_fails
                  fresh_world record_with_price Hrej) as (_ & _ & Hgone & _ & Htouch & _).
    split; [reflexivity|]. split; [reflexivity|].
    split; [exact (Htouch _ eq_refl) | exact (Hgone eq_refl)].
  - pose proof (C5_lock_removed_and_errors_propagate is_valid_fieldname io_write_fails
                  fresh_world record_with_price Hrej) as (_ & _ & Hgone & _ & _ & Hwrite).
    split; [reflexivity|]. split; [reflexivity|]. split; [exact Hurl|].
    split; [exact Hvalid|].
    split; [exact (Hwrite _ "A" eq_refl eq_refl Hurl Hvalid) | exact (Hgone eq_refl)].
Defined.

(** ** C4: the batch save *)

Section BatchFacts.

Variable valid : string → bool.

Lemma batch_step_is_upsert (existing_data next : store) (listing : record) :
  batch_step valid existing_data listing = inl next →
  next = upsert_if_url valid existing_data listing.
Proof.
  unfold batch_step, upsert_if_url, upsert_listing.
  destruct (dict_get listing "url") as [| | |url| |]; simpl;
    repeat case_match; intros; by simplify_eq.
Qed.

Lemma batch_loop_is_fold (listings : list record) (existing_data after : store) :
  batch_loop valid existing_data listings = inl after →
  after = foldl (upsert_if_url valid) existing_data listings.
Proof.
  revert existing_data. induction listings as [|listing rest IH]; simpl.
  - intros existing_data Heq. by simplify_eq.
  - intros existing_data Hloop.
    destruct (batch_step valid existing_data listing) as [next|] eqn:Hstep; [|done].
    apply batch_step_is_upsert in Hstep as ->. by apply IH.
Qed.

Lemma filter_all_valid (names : list string) :
  Forall (λ f, valid f = true) names → List.filter valid names = names.
Proof.
  induction 1 as [|f names Hf _ IH]; simpl; [done|]. by rewrite Hf, IH.
Qed.

Lemma filter_keeps_valid (names : list string) :
  Forall (λ f, valid f = true) (List.filter valid names).
Proof.
  apply Forall_forall. intros f Hf. apply list_elem_of_In, filter_In in Hf. tauto.
Qed.

(** What a batch leaves in the store file: what was there, or one file
    written from the rows of the single snapshot with every record of the
    batch merged in, in order. *)
Lemma save_listings_batch_file (io : io_env) (file : option csv_file)
    (listings : list record) :
  (save_listings_batch valid io file listings).2 = file
  ∨ ∃ header,
      header ≠ [] ∧ Forall (λ f, valid f = true) header
      ∧ save_listings_batch valid io file listings
        = (Returned,
           Some (written_file valid header
                   (foldl (upsert_if_url valid)
                          (_read_existing_data valid (read_fails io) file).1 listings))).
Proof.
  unfold save_listings_batch.
  destruct listings as [|listing rest]; [by left|].
  destruct (_read_existing_data valid (read_fails io) file) as [snapshot fields].
  destruct (batch_loop valid snapshot (listing :: rest)) as [after|] eqn:Hloop;
    [|by left].
  apply batch_loop_is_fold in Hloop as ->.
  destruct (sorted_fieldnames _) as [|name names] eqn:Hsorted; [by left|].
  destruct (List.filter valid (name :: names)) as [|h header] eqn:Hfilter; [by left|].
  destruct (write_error io); [by left|].
  right. exists (h :: header). split; [done|]. split; [|done].
  rewrite <- Hfilter. apply filter_keeps_valid.
Qed.

End BatchFacts.

Lemma batch_of_one_is_single_save (valid : string → bool) (io : io_env) (w : world)
    (listing : record) :
  save_single_rejects listing = None →
  touch_error io = None →
  list_to_set (_read_existing_data valid (read_fails io) (store_file w)).2
    ⊆ store_fieldnames valid (_read_existing_data valid (read_fails io) (store_file w)).1
      ∪ valid_keys valid listing →
  save_listings_batch valid io (store_file w) [listing]
  = ((save_single_listing valid io w listing).1,
     store_file (save_single_listing valid io w listing).2).
Proof.
  intros Hrej Htouch Hfields.
  assert (Htruthy : py_truthy (dict_get listing "url") = true).
  { unfold save_single_rejects in Hrej.
    destruct (bool_decide (listing = ∅)); [done|].
    by destruct (py_truthy (dict_get listing "url")). }
  unfold save_single_listing. rewrite Hrej.
  unfold save_listings_batch, save_single_try. rewrite Htouch.
  cbn [_acquire_lock store_file]. simpl batch_loop. unfold batch_step.
  rewrite Htruthy. cbn [negb].
  destruct (_read_existing_data valid (read_fails io) (store_file w))
    as [snapshot fields]. cbn [fst snd] in Hfields.
  destruct (dict_get listing "url") as [| | |url| |]; try done;
    try (cbn [fst snd]; by rewrite release_lock_store_file).
  assert (match snapshot !! url with
          | Some existing_row =>
              inl (<[url := _merge_listing_data valid existing_row listing]> snapshot)
          | None => inl (<[url := listing]> snapshot)
          end = (inl (upsert_listing valid snapshot url listing) : store + string)) as ->.
  { unfold upsert_listing. by destruct (snapshot !! url). }
  set (existing_data := upsert_listing valid snapshot url listing).
  assert (list_to_set fields ∪ store_fieldnames valid existing_data
          = store_fieldnames valid existing_data ∪ valid_keys valid listing) as ->.
  { pose proof (upsert_has_listing_keys valid snapshot url listing) as Hnew.
    pose proof (upsert_keeps_fieldnames valid snapshot url listing) as Hold.
    fold existing_data in Hnew, Hold. apply set_eq. intros f.
    rewrite !elem_of_union. split; [|intros [?|?]; auto].
    intros [Hf|Hf]; [|auto]. left. apply Hfields, elem_of_union in Hf as [?|?]; auto. }
  pose proof (sorted_union_valid valid existing_data listing) as Hall.
  destruct (sorted_fieldnames _) as [|name names] eqn:Hsorted;
    [cbn [fst snd]; by rewrite release_lock_store_file|].
  rewrite (filter_all_valid valid _ Hall).
  destruct (write_error io); cbn [fst snd]; by rewrite release_lock_store_file.
Qed.

(** C4, as stated, fails: on a store without file, [save_single_listing]
    rejects the technical-failure marker of the test suite and writes
    nothing, while [save_listings_batch] with that one record writes it into
    the store file. *)
Lemma C4_counterexample_batch_writes_marker :
  _is_technical_error record_launch_failure = true
  ∧ save_single_listing is_valid_fieldname io_quiet fresh_world record_launch_failure
    = (Returned, fresh_world)
  ∧ save_listings_batch is_valid_fieldname io_quiet (store_file fresh_world)
      [record_launch_failure]
    = (Returned,
       Some [["error"; "url"];
             ["BrowserType.launch: Failed to launch browser"; "https://example.com/listing"]]).
Proof. split; [|split]; vm_compute; reflexivity. Qed.

(** C4, amended. For every batch without technical-failure marker,
    [save_listings_batch] loads the store once and either leaves the store
    file as it was, or rewrites it once, under a non-empty header of valid
    field names, from the rows of that one snapshot into which every record
    of the batch that carries a url has been merged, in order, by the
    merge-or-insert step of [save_single_listing]; records without url are
    skipped. It takes no lock. For a batch of one record that
    [save_single_listing] accepts, when creating the marker does not fail
    and every column of the loaded header is a key of a loaded row or of the
    record, the batch ends as [save_single_listing] ends and leaves the same
    store file. *)
Theorem C4_batch_merges_into_one_snapshot (valid : string → bool) (io : io_env) :
  (∀ (file : option csv_file) (listings : list record),
     Forall (λ listing, _is_technical_error listing = false) listings →
     (save_listings_batch valid io file listings).2 = file
     ∨ ∃ header,
         header ≠ [] ∧ Forall (λ f, valid f = true) header
         ∧ save_listings_batch valid io file listings
           = (Returned,
              Some (written_file valid header
                      (foldl (upsert_if_url valid)
                             (_read_existing_data valid (read_fails io) file).1 listings))))
  ∧ (∀ (w : world) (listing : record),
       save_single_rejects listing = None →
       touch_error io = None →
       list_to_set (_read_existing_data valid (read_fails io) (store_file w)).2
         ⊆ store_fieldnames valid (_read_existing_data valid (read_fails io) (store_file w)).1
           ∪ valid_keys valid listing →
       save_listings_batch valid io (store_file w) [listing]
       = ((save_single_listing valid io w listing).1,
          store_file (save_single_listing valid io w listing).2)).
Proof.
  split.
  - intros file listings _. apply save_listings_batch_file.
  - intros w listing. apply batch_of_one_is_single_save.
Qed.

(** C4 at work: a batch of the two records of the specification on a fresh
    store, and a batch of one record on a store with one row. *)
Lemma C4_witness :
  (Forall (λ listing, _is_technical_error listing = false)
          [record_with_price; record_with_title]
   ∧ ((save_listings_batch is_valid_fieldname io_quiet None
         [record_with_price; record_with_title]).2 = None
      ∨ ∃ header,
          header ≠ [] ∧ Forall (λ f, is_valid_fieldname f = true) header
          ∧ save_listings_batch is_valid_fieldname io_quiet None
              [record_with_price; record_with_title]
            = (Returned,
               Some (written_file is_valid_fieldname header
                       (foldl (upsert_if_url is_valid_fieldname)
                              (_read_existing_data is_valid_fieldname (read_fails io_quiet)
                                 None).1
                              [record_with_price; record_with_title])))))
  ∧ (save_single_rejects record_with_title = None
     ∧ touch_error io_quiet = None
     ∧ list_to_set (_read_existing_data is_valid_fieldname (read_fails io_quiet)
                      (store_file world_with_one_row)).2
         ⊆ store_fieldnames is_valid_fieldname
             (_read_existing_data is_valid_fieldname (read_fails io_quiet)
                (store_file world_with_one_row)).1
           ∪ valid_keys is_valid_fieldname record_with_title
     ∧ save_listings_batch is_valid_fieldname io_quiet (store_file world_with_one_row)
         [record_with_title]
       = ((save_single_listing is_valid_fieldname io_quiet world_with_one_row
             record_with_title).1,
          store_file (save_single_listing is_valid_fieldname io_quiet world_with_one_row
                        record_with_title).2)).
Proof.
  pose proof (C4_batch_merges_into_one_snapshot is_valid_fieldname io_quiet)
    as [Hbatch Hone].
  assert (Hclean : Forall (λ listing, _is_technical_error listing = false)
                          [record_with_price; record_with_title]).
  { repeat constructor; vm_compute; reflexivity. }
  assert (Hrej : save_single_rejects record_with_title = None) by (vm_compute; reflexivity).
  assert (Hfields :
            list_to_set (_read_existing_data is_valid_fieldname (read_fails io_quiet)
                           (store_file world_with_one_row)).2
              ⊆ store_fieldnames is_valid_fieldname
                  (_read_existing_data is_valid_fieldname (read_fails io_quiet)
                     (store_file world_with_one_row)).1
                ∪ valid_keys is_valid_fieldname record_with_title).
  { refine (bool_decide_unpack _ _). vm_compute. exact I. }
  split.
  - split; [exact Hclean | exact (Hbatch None _ Hclean)].
  - split; [exact Hrej|]. split; [reflexivity|]. split; [exact Hfields|].
    exact (Hone world_with_one_row record_with_title Hrej eq_refl Hfields).
Defined.

(** ** C8: retry delays *)

(** C8, as stated, fails: with a base delay of 0 (the value the test suite
    gives to [Config.RETRY_DELAY]) and a backoff of 2, the delays of
    attempts 0 and 1 are both 0. *)
Lemma C8_counterexample_zero_base_delay :
  (1 < RETRY_BACKOFF cfg_zero_delay)%Q
  ∧ (0 < 1)%nat
  ∧ ¬ (calculate_retry_delay cfg_zero_delay 0 < calculate_retry_delay cfg_zero_delay 1)%Q.
Proof.
  split; [reflexivity|]. split; [lia|]. vm_compute. discriminate.
Qed.

(** C8, amended. For every pair of attempt numbers i < j, the delay
    [RETRY_DELAY * RETRY_BACKOFF ** attempt] of [calculate_retry_delay]
    satisfies delay(i) < delay(j) whenever the base delay is positive and the
    backoff multiplier is greater than 1. *)
Theorem C8_retry_delay_strictly_increases (cfg : Config) (i j : nat) :
  (0 < RETRY_DELAY cfg)%Q → (1 < RETRY_BACKOFF cfg)%Q → (i < j)%nat →
  (calculate_retry_delay cfg i < calculate_retry_delay cfg j)%Q.
Proof.
  intros Hdelay Hbackoff Hij. unfold calculate_retry_delay.
  apply Qmult_lt_l; [exact Hdelay|].
  apply Qpower_lt_compat_l; [lia | exact Hbackoff].
Qed.

(** C8 at work: base delay 1, backoff 2, attempts 1 and 2. *)
Lemma C8_witness :
  (0 < RETRY_DELAY cfg_two_retries)%Q ∧ (1 < RETRY_BACKOFF cfg_two_retries)%Q ∧ (1 < 2)%nat
  ∧ (calculate_retry_delay cfg_two_retries 1 < calculate_retry_delay cfg_two_retries 2)%Q.
Proof.
  split; [reflexivity|]. split; [reflexivity|]. split; [lia|].
  apply C8_retry_delay_strictly_increases; [reflexivity | reflexivity | lia].
Defined.

(** ** C7: statistics *)

Lemma stats_le_refl (st : stats) : stats_le st st.
Proof. unfold stats_le. lia. Qed.

Lemma stats_le_trans (a b c : stats) : stats_le a b → stats_le b c → stats_le a c.
Proof. unfold stats_le. lia. Qed.

Lemma update_stats_grows (st st' : stats) (result : option record) :
  _update_stats_from_result st result = Some st' → stats_le st st'.
Proof.
  unfold _update_stats_from_result, stats_le.
  intros Hst. repeat case_match; simplify_eq; simpl; lia.
Qed.

Lemma tally_gathered_grows (st st' : stats) (g : gathered) :
  tally_gathered st g = Some st' → stats_le st st'.
Proof.
  destruct g as [message|[r|]]; intros Hst.
  - simpl in Hst. simplify_eq. unfold stats_le. simpl. lia.
  - exact (update_stats_grows _ _ _ Hst).
  - simpl in Hst. simplify_eq. unfold stats_le. simpl. lia.
Qed.

Lemma tally_sequential_grows (st : stats) (out : url_outcome) :
  stats_le st (tally_sequential st out).
Proof.
  unfold tally_sequential. destruct out as [result|message].
  - destruct (result_truthy result).
    + destruct (_update_stats_from_result st result) as [st'|] eqn:Hst.
      * by eapply update_stats_grows.
      * unfold stats_le. simpl. lia.
    + unfold stats_le. simpl. lia.
  - unfold stats_le. simpl. lia.
Qed.

Lemma tally_all_gathered_grows (outcomes : list gathered) (st st' : stats) :
  tally_all_gathered st outcomes = Some st' → stats_le st st'.
Proof.
  revert st. induction outcomes as [|g rest IH]; simpl; intros st Hst.
  - simplify_eq. apply stats_le_refl.
  - destruct (tally_gathered st g) as [mid|] eqn:Hmid; [|done].
    eapply stats_le_trans; [by eapply tally_gathered_grows | by apply IH].
Qed.

(** C7. For every outcome recorded into the statistics by
    [_update_stats_from_result]: a None outcome adds 1 to [skipped]; a result
    with an [error] field whose text contains "403" or "429" adds 1 to
    [blocked] and leaves [failed] as it is; any other result with an [error]
    field adds 1 to [failed]; a successful search-results outcome adds the
    number of listings it carries to [success]; any other successful result
    adds 1 to [success]. No other counter moves. No counter ever decreases:
    not across one update, not across one turn of either loop of the
    orchestrator, not across the whole tally of a run. *)
Theorem C7_statistics_by_outcome (st : stats) :
  _update_stats_from_result st None
    = Some (MkStats (total st) (success st) (failed st) (blocked st) (S (skipped st)))
  ∧ (∀ r, dict_has r "error" = true →
          PyStr.contains "403" (py_str (dict_get r "error")) = true
          ∨ PyStr.contains "429" (py_str (dict_get r "error")) = true →
          _update_stats_from_result st (Some r)
            = Some (MkStats (total st) (success st) (failed st) (S (blocked st)) (skipped st)))
  ∧ (∀ r, dict_has r "error" = true →
          PyStr.contains "403" (py_str (dict_get r "error")) = false →
          PyStr.contains "429" (py_str (dict_get r "error")) = false →
          _update_stats_from_result st (Some r)
            = Some (MkStats (total st) (success st) (S (failed st)) (blocked st) (skipped st)))
  ∧ (∀ r listings, dict_has r "error" = false →
          r !! "type" = Some (VStr "search_results") →
          r !! "listings" = Some (VList listings) →
          _update_stats_from_result st (Some r)
            = Some (MkStats (total st) (success st + length listings) (failed st)
                      (blocked st) (skipped st)))
  ∧ (∀ r, dict_has r "error" = false → is_search_results r = false →
          _update_stats_from_result st (Some r)
            = Some (MkStats (total st) (S (success st)) (failed st) (blocked st) (skipped st)))
  ∧ (∀ result st', _update_stats_from_result st result = Some st' → stats_le st st')
  ∧ (∀ g st', tally_gathered st g = Some st' → stats_le st st')
  ∧ (∀ out, stats_le st (tally_sequential st out))
  ∧ (∀ outcomes st', tally_all_gathered st outcomes = Some st' → stats_le st st').
Proof.
  assert (Hget : ∀ r : record, dict_has r "error" = true →
                   dict_get_or r "error" (VStr EmptyString) = dict_get r "error").
  { intros r Hhas. unfold dict_has in Hhas. apply bool_decide_eq_true in Hhas as [e He].
    unfold dict_get_or, dict_get. by rewrite He. }
  split; [done|]. split; [|split; [|split; [|split]]].
  - intros r Hhas Hblocked. unfold _update_stats_from_result.
    rewrite Hhas, (Hget r Hhas). by destruct Hblocked as [-> | ->]; rewrite ?orb_true_r.
  - intros r Hhas H403 H429. unfold _update_stats_from_result.
    by rewrite Hhas, (Hget r Hhas), H403, H429.
  - intros r listings Hhas Htype Hlist. unfold _update_stats_from_result, is_search_results.
    rewrite Hhas. unfold dict_get, dict_has. rewrite Htype, Hlist. done.
  - intros r Hhas Hsearch. unfold _update_stats_from_result. by rewrite Hhas, Hsearch.
  - split; [intros result st'; apply update_stats_grows|].
    split; [intros g st'; apply tally_gathered_grows|].
    split; [apply tally_sequential_grows|].
    intros outcomes st'. apply tally_all_gathered_grows.
Qed.

(** C7 at work on a blocked result, a failed one, a search page with two
    listings, a single record, and a run of four outcomes. *)
Lemma C7_witness :
  (dict_has error_403 "error" = true
   ∧ PyStr.contains "403" (py_str (dict_get error_403 "error")) = true
   ∧ _update_stats_from_result stats_zero (Some error_403) = Some (MkStats 0 0 0 1 0))
  ∧ (dict_has error_timeout "error" = true
     ∧ _update_stats_from_result stats_zero (Some error_timeout) = Some (MkStats 0 0 1 0 0))
  ∧ (dict_has search_result "error" = false
     ∧ _update_stats_from_result stats_zero (Some search_result) = Some (MkStats 0 2 0 0 0))
  ∧ (dict_has record_with_price "error" = false ∧ is_search_results record_with_price = false
     ∧ _update_stats_from_result stats_zero (Some record_with_price)
       = Some (MkStats 0 1 0 0 0))
  ∧ (tally_all_gathered stats_zero gathered_sample = Some (MkStats 0 2 1 1 1)
     ∧ stats_le stats_zero (MkStats 0 2 1 1 1)).
Proof.
  pose proof (C7_statistics_by_outcome stats_zero)
    as (_ & Hblocked & Hfailed & Hsearch & Hone & _ & _ & _ & Hrun).
  split; [|split; [|split; [|split]]].
  - split; [vm_compute; reflexivity|]. split; [vm_compute; reflexivity|].
    apply Hblocked; [vm_compute; reflexivity | left; vm_compute; reflexivity].
  - split; [vm_compute; reflexivity|].
    apply Hfailed; vm_compute; reflexivity.
  - split; [vm_compute; reflexivity|].
    apply (Hsearch search_result [VDict [("url", VStr "A")]; VDict [("url", VStr "B")]]);
      vm_compute; reflexivity.
  - split; [vm_compute; reflexivity|]. split; [vm_compute; reflexivity|].
    apply Hone; vm_compute; reflexivity.
  - split; [vm_compute; reflexivity|].
    apply (Hrun gathered_sample). vm_compute. reflexivity.
Defined.

(** ** C6: the retry loop of process_url *)

Lemma count_attempts_app (a b : list event) :
  count_attempts (a ++ b) = (count_attempts a + count_attempts b)%nat.
Proof. unfold count_attempts. by rewrite List.filter_app, length_app. Qed.

Section RetryFacts.

Variables (cfg : Config) (fetch : nat → attempt_outcome) (url : string) (max_retries : nat).

(** Every call of [process_scrape_attempt] makes one attempt. *)
Lemma scrape_attempt_counts_one (attempt : nat) :
  count_attempts (process_scrape_attempt cfg fetch url attempt max_retries).2 = 1%nat.
Proof. unfold process_scrape_attempt. by repeat case_match. Qed.

Lemma scrape_attempt_success (attempt : nat) (r : record) :
  fetch attempt = Yields (Some r) → attempt_succeeds (fetch attempt) = true →
  process_scrape_attempt cfg fetch url attempt max_retries = (Some r, [EvAttempt attempt]).
Proof.
  intros Hfetch Hok. unfold process_scrape_attempt. rewrite Hfetch in *.
  simpl in *. by rewrite Hok.
Qed.

Lemma scrape_attempt_retry (attempt : nat) :
  attempt_succeeds (fetch attempt) = false → (attempt < max_retries)%nat →
  (process_scrape_attempt cfg fetch url attempt max_retries).1 = None.
Proof.
  intros Hfail Hlt. unfold process_scrape_attempt.
  destruct (fetch attempt) as [[r|]|message]; simpl in *.
  - by rewrite Hfail.
  - done.
  - by rewrite (proj2 (Nat.leb_gt _ _) Hlt).
Qed.

Lemma scrape_attempt_no_result (attempt : nat) (result : option record) :
  fetch attempt = Yields result → attempt_succeeds (fetch attempt) = false →
  (process_scrape_attempt cfg fetch url attempt max_retries).1 = None.
Proof.
  intros Hfetch Hfail. unfold process_scrape_attempt. rewrite Hfetch in *.
  destruct result as [r|]; simpl in *; [by rewrite Hfail | done].
Qed.

Lemma retry_loop_count (remaining attempt : nat) :
  (count_attempts (retry_loop cfg fetch url max_retries remaining attempt).2 ≤ remaining)%nat.
Proof.
  revert attempt. induction remaining as [|remaining IH]; intros attempt; simpl; [done|].
  pose proof (scrape_attempt_counts_one attempt) as Hone.
  destruct (process_scrape_attempt cfg fetch url attempt max_retries)
    as [[r|] events]; simpl in *; [lia|].
  specialize (IH (S attempt)).
  destruct (retry_loop cfg fetch url max_retries remaining (S attempt)) as [r later].
  simpl in *. rewrite count_attempts_app. lia.
Qed.

Lemma retry_loop_first_success (remaining attempt n : nat) (r : record) :
  (attempt ≤ n)%nat → (n < attempt + remaining)%nat → (n ≤ max_retries)%nat →
  fetch n = Yields (Some r) → attempt_succeeds (fetch n) = true →
  (∀ m, (attempt ≤ m)%nat → (m < n)%nat → attempt_succeeds (fetch m) = false) →
  (retry_loop cfg fetch url max_retries remaining attempt).1 = r
  ∧ count_attempts (retry_loop cfg fetch url max_retries remaining attempt).2
    = S (n - attempt).
Proof.
  revert attempt. induction remaining as [|remaining IH];
    intros attempt Hle Hlt Hmax Hfetch Hok Hearlier; [lia|].
  simpl. destruct (decide (attempt = n)) as [->|Hne].
  - rewrite (scrape_attempt_success n r Hfetch Hok). simpl.
    split; [done|]. by rewrite Nat.sub_diag.
  - pose proof (scrape_attempt_retry attempt (Hearlier attempt ltac:(lia) ltac:(lia))
                  ltac:(lia)) as Hnone.
    pose proof (scrape_attempt_counts_one attempt) as Hone.
    destruct (process_scrape_attempt cfg fetch url attempt max_retries)
      as [result events]. simpl in Hnone, Hone. subst result.
    destruct (IH (S attempt)) as [Hres Hcount]; [lia|lia|done|done|done| |].
    { intros m Hm1 Hm2. apply Hearlier; lia. }
    destruct (retry_loop cfg fetch url max_retries remaining (S attempt)) as [r' later].
    simpl in *. split; [done|]. rewrite count_attempts_app. lia.
Qed.

Lemma retry_loop_exhausted (remaining attempt : nat) :
  (attempt + remaining = S max_retries)%nat →
  (∀ m, (attempt ≤ m)%nat → (m ≤ max_retries)%nat →
        ∃ result, fetch m = Yields result ∧ attempt_succeeds (fetch m) = false) →
  (retry_loop cfg fetch url max_retries remaining attempt).1
  = error_record url "Max retries exceeded".
Proof.
  revert attempt. induction remaining as [|remaining IH];
    intros attempt Hsum Hall; [done|].
  simpl. destruct (Hall attempt) as (result & Hfetch & Hfail); [lia|lia|].
  pose proof (scrape_attempt_no_result attempt result Hfetch Hfail) as Hnone.
  destruct (process_scrape_attempt cfg fetch url attempt max_retries)
    as [res events]. simpl in Hnone. subst res.
  specialize (IH (S attempt) ltac:(lia)).
  destruct (retry_loop cfg fetch url max_retries remaining (S attempt)) as [r later].
  simpl in *. apply IH. intros m Hm1 Hm2. apply Hall; lia.
Qed.

Lemma retry_loop_final_exception (remaining attempt : nat) (message : string) :
  (attempt + remaining = S max_retries)%nat → (attempt ≤ max_retries)%nat →
  fetch max_retries = Throws message →
  (∀ m, (attempt ≤ m)%nat → (m < max_retries)%nat → attempt_succeeds (fetch m) = false) →
  (retry_loop cfg fetch url max_retries remaining attempt).1 = error_record url message.
Proof.
  revert attempt. induction remaining as [|remaining IH];
    intros attempt Hsum Hle Hthrow Hearlier; [lia|].
  simpl. destruct (decide (attempt = max_retries)) as [->|Hne].
  - unfold process_scrape_attempt. rewrite Hthrow, Nat.leb_refl. done.
  - pose proof (scrape_attempt_retry attempt (Hearlier attempt ltac:(lia) ltac:(lia))
                  ltac:(lia)) as Hnone.
    destruct (process_scrape_attempt cfg fetch url attempt max_retries)
      as [res events]. simpl in Hnone. subst res.
    specialize (IH (S attempt) ltac:(lia) ltac:(lia) Hthrow).
    destruct (retry_loop cfg fetch url max_retries remaining (S attempt)) as [r later].
    simpl in *. apply IH. intros m Hm1 Hm2. apply Hearlier; lia.
Qed.

End RetryFacts.

(** C6, as stated, fails twice. With no retry configured and a fetcher that
    returns the empty dict, the first attempt carries no [error] field, yet
    [process_url] does not return it: the test [result and ...] treats the
    empty dict as a failed attempt and the call ends with "Max retries
    exceeded". And when [process_url] has created the browser itself and
    [close] raises, the call raises, although the URL is compliant and the
    first attempt succeeded. *)
Lemma C6_counterexample_empty_result_and_close :
  (compliant env_empty_result = true
   ∧ fetcher env_empty_result 0 = Yields (Some ∅)
   ∧ dict_has (∅ : record) "error" = false
   ∧ (process_url cfg_no_retry env_empty_result "u").1
     = UrlReturns (Some (error_record "u" "Max retries exceeded"))
   ∧ (process_url cfg_no_retry env_empty_result "u").1 ≠ UrlReturns (Some ∅))
  ∧ (compliant env_close_fails = true
     ∧ (process_url cfg_no_retry env_close_fails "u").1 = UrlRaises "Target closed").
Proof.
  split; [|split; vm_compute; reflexivity].
  split; [reflexivity|]. split; [reflexivity|]. split; [vm_compute; reflexivity|].
  split; [vm_compute; reflexivity|].
  intros Heq.
  assert (Hurl : error_record "u" "Max retries exceeded" !! "url" = (∅ : record) !! "url").
  { vm_compute in Heq. by simplify_eq. }
  vm_compute in Hurl. discriminate Hurl.
Qed.

(** C6, amended. For every URL that passes the compliance gate,
    [process_url] makes at most [MAX_RETRIES + 1] attempts. Provided that
    closing a browser it created itself does not fail: the first attempt
    whose result is a non-empty dict without [error] field is returned, with
    no further attempt; if every attempt yields a result that is None, empty
    or carries an [error] field, the call returns
    [{url, error: "Max retries exceeded"}]; if the final attempt raises, no
    earlier attempt having succeeded, the call returns
    [{url, error: <exception text>}]; in every case the call returns a
    record: it does not raise and does not return None. *)
Theorem C6_process_url_outcomes (cfg : Config) (env : fetch_env) (url : string) :
  compliant env = true →
  let run := process_url cfg env url in
  let max_retries := MAX_RETRIES cfg in
  (count_attempts run.2 ≤ max_retries + 1)%nat
  ∧ (∀ n r, (n ≤ max_retries)%nat →
            fetcher env n = Yields (Some r) → r ≠ ∅ → dict_has r "error" = false →
            (∀ m, (m < n)%nat → attempt_succeeds (fetcher env m) = false) →
            close_completes env →
            run.1 = UrlReturns (Some r) ∧ count_attempts run.2 = S n)
  ∧ ((∀ n, (n ≤ max_retries)%nat →
           ∃ result, fetcher env n = Yields result
                     ∧ attempt_succeeds (fetcher env n) = false) →
     close_completes env →
     run.1 = UrlReturns (Some (error_record url "Max retries exceeded")))
  ∧ (∀ message, fetcher env max_retries = Throws message →
                (∀ m, (m < max_retries)%nat → attempt_succeeds (fetcher env m) = false) →
                close_completes env →
                run.1 = UrlReturns (Some (error_record url message)))
  ∧ (close_completes env → ∃ r, run.1 = UrlReturns (Some r)).
Proof.
  intros Hcompliant run max_retries. subst run max_retries.
  unfold process_url. rewrite Hcompliant. cbn [negb].
  pose proof (retry_loop_count cfg (fetcher env) url (MAX_RETRIES cfg)
                (S (MAX_RETRIES cfg)) 0) as Hcount.
  destruct (retry_loop cfg (fetcher env) url (MAX_RETRIES cfg) (S (MAX_RETRIES cfg)) 0)
    as [result events] eqn:Hloop.
  cbn [fst snd] in Hcount.
  assert (Hends : close_completes env →
                  (if browser_supplied env then (UrlReturns (Some result), events)
                   else match close_error env with
                        | Some message => (UrlRaises message, events ++ [EvCloseBrowser])
                        | None => (UrlReturns (Some result), events ++ [EvCloseBrowser])
                        end).1 = UrlReturns (Some result)).
  { intros [Hsupplied|Hclose]; [by rewrite Hsupplied|].
    rewrite Hclose. by destruct (browser_supplied env). }
  assert (Hevents : count_attempts
                      (if browser_supplied env then (UrlReturns (Some result), events)
                       else match close_error env with
                            | Some message => (UrlRaises message, events ++ [EvCloseBrowser])
                            | None => (UrlReturns (Some result), events ++ [EvCloseBrowser])
                            end).2 = count_attempts events).
  { destruct (browser_supplied env); [done|].
    destruct (close_error env); cbn [snd]; rewrite count_attempts_app;
      change (count_attempts [EvCloseBrowser]) with 0%nat; lia. }
  rewrite Hevents. split; [lia|]. split; [|split; [|split]].
  - intros n r Hn Hfetch Hnonempty Herror Hearlier Hclose.
    assert (Hok : attempt_succeeds (fetcher env n) = true).
    { rewrite Hfetch. simpl. rewrite Herror. by rewrite bool_decide_eq_false_2. }
    destruct (retry_loop_first_success cfg (fetcher env) url (MAX_RETRIES cfg)
                (S (MAX_RETRIES cfg)) 0 n r) as [Hres Hcnt]; try done; try lia.
    { intros m _ Hm. by apply Hearlier. }
    rewrite Hloop in Hres, Hcnt. cbn [fst snd] in Hres, Hcnt. subst result.
    split; [by apply Hends|]. rewrite Hcnt. lia.
  - intros Hall Hclose. rewrite (Hends Hclose).
    pose proof (retry_loop_exhausted cfg (fetcher env) url (MAX_RETRIES cfg)
                  (S (MAX_RETRIES cfg)) 0 eq_refl) as Hres.
    rewrite Hloop in Hres. cbn [fst] in Hres. rewrite Hres; [done|].
    intros m _ Hm. by apply Hall.
  - intros message Hthrow Hearlier Hclose. rewrite (Hends Hclose).
    pose proof (retry_loop_final_exception cfg (fetcher env) url (MAX_RETRIES cfg)
                  (S (MAX_RETRIES cfg)) 0 message eq_refl ltac:(lia) Hthrow) as Hres.
    rewrite Hloop in Hres. cbn [fst] in Hres. rewrite Hres; [done|].
    intros m _ Hm. by apply Hearlier.
  - intros Hclose. exists result. by apply Hends.
Qed.

(** C6 at work with two retries: a record at the third attempt, an error
    result at every attempt, an exception at every attempt. *)
Lemma C6_witness :
  (compliant env_third_time = true
   ∧ fetcher env_third_time 2 = Yields (Some record_with_price)
   ∧ close_completes env_third_time
   ∧ (process_url cfg_two_retries env_third_time "u").1 = UrlReturns (Some record_with_price)
   ∧ count_attempts (process_url cfg_two_retries env_third_time "u").2 = 3%nat)
  ∧ (compliant env_always_blocked = true
     ∧ (process_url cfg_two_retries env_always_blocked "u").1
       = UrlReturns (Some (error_record "u" "Max retries exceeded")))
  ∧ (compliant env_always_throws = true
     ∧ fetcher env_always_throws (MAX_RETRIES cfg_two_retries) = Throws "Network error"
     ∧ (process_url cfg_two_retries env_always_throws "u").1
       = UrlReturns (Some (error_record "u" "Network error"))).
Proof.
  split; [|split].
  - pose proof (C6_process_url_outcomes cfg_two_retries env_third_time "u" eq_refl)
      as (_ & Hfirst & _).
    split; [reflexivity|]. split; [reflexivity|]. split; [right; reflexivity|].
    apply (Hfirst 2%nat record_with_price).
    + simpl. lia.
    + reflexivity.
    + intros Heq. apply (f_equal (λ r : record, r !! "url")) in Heq.
      vm_compute in Heq. discriminate Heq.
    + vm_compute. reflexivity.
    + intros m Hm. destruct m as [|[|m]]; [vm_compute; reflexivity.. | lia].
    + right. reflexivity.
  - pose proof (C6_process_url_outcomes cfg_two_retries env_always_blocked "u" eq_refl)
      as (_ & _ & Hexhausted & _).
    split; [reflexivity|]. apply Hexhausted; [|right; reflexivity].
    intros n _. exists (Some error_403). split; [reflexivity | vm_compute; reflexivity].
  - pose proof (C6_process_url_outcomes cfg_two_retries env_always_throws "u" eq_refl)
      as (_ & _ & _ & Hthrow & _).
    split; [reflexivity|]. split; [reflexivity|].
    apply Hthrow; [reflexivity | | right; reflexivity].
    intros m _. reflexivity.
Defined.

(** * Further properties

    Properties of the code that the specification does not state. *)

(** ** Field names *)

Lemma str_append_cons (c : ascii) (s t : string) : String c s +:+ t = String c (s +:+ t).
Proof. reflexivity. Qed.

Lemma startswith_app (p s : string) : PyStr.startswith p (p +:+ s) = true.
Proof. induction p as [|a p IH]; [done|]. rewrite str_append_cons. simpl. by rewrite decide_True. Qed.

Lemma startswith_split (p s : string) :
  PyStr.startswith p s = true → s = p +:+ PyStr.drop (String.length p) s.
Proof.
  revert s. induction p as [|a p IH]; intros s; simpl; [done|].
  destruct s as [|b s]; [done|]. case_decide as Hab; [|done].
  intros Hs. subst b. rewrite str_append_cons. f_equal. by apply IH.
Qed.

Lemma drop_app_length (p s : string) : PyStr.drop (String.length p) (p +:+ s) = s.
Proof. induction p as [|a p IH]; [by destruct s|]. rewrite str_append_cons. done. Qed.

(** X1. [is_valid_fieldname] rejects exactly two kinds of names: the empty
    name, and [column_] followed by one or more digits, the names the reader
    gives to the columns of a file without header. Every other name is
    accepted. *)
Theorem is_valid_fieldname_rejects (fieldname : string) :
  is_valid_fieldname fieldname = false ↔
  fieldname = EmptyString
  ∨ ∃ digits, fieldname = "column_" +:+ digits ∧ PyStr.isdigit digits = true.
Proof.
  unfold is_valid_fieldname. split.
  - destruct fieldname as [|c rest]; [by left|]. cbn [PyStr.is_empty].
    destruct (PyStr.startswith "column_" (String c rest)) eqn:Hstart; [|done].
    destruct (PyStr.isdigit _) eqn:Hdigit; [|done]. intros _. right.
    exists (PyStr.drop 7 (String c rest)). split; [|done].
    by apply (startswith_split "column_").
  - intros [->|(digits & -> & Hdigit)]; [done|].
    change (PyStr.is_empty ("column_" +:+ digits)) with false. cbn iota.
    rewrite (startswith_app "column_"), (drop_app_length "column_"), Hdigit. done.
Qed.

(** ** The merge and the conversion to a row *)

Section MergeMore.

Variable valid : string → bool.

(** X2. The keys of the merged row are the keys of the existing row together
    with the valid keys of the new record: [_merge_listing_data] drops no
    key and adds no invalid one. *)
Theorem merge_key_set (existing_row new_listing : record) :
  dom (_merge_listing_data valid existing_row new_listing)
  = dom existing_row ∪ valid_keys valid new_listing.
Proof.
  apply set_eq. intros k.
  rewrite elem_of_union, !elem_of_dom, elem_of_valid_keys, merge_lookup.
  unfold merged_entry. destruct (new_listing !! k) as [w|] eqn:Hnew.
  - destruct (valid k) eqn:Hvalid; simpl.
    + destruct (_is_empty_value w); simpl.
      * destruct (existing_row !! k); split; eauto.
      * split; eauto.
    + split; [eauto|]. by intros [?|[? _]].
  - split; [eauto|]. intros [?|[_ [? ?]]]; done.
Qed.

(** X3. Merging the same record a second time changes nothing, and merging a
    row with itself gives the row back: a save that is repeated leaves the
    row as the first save left it. *)
Theorem merge_replay_changes_nothing (existing_row new_listing : record) :
  _merge_listing_data valid (_merge_listing_data valid existing_row new_listing) new_listing
  = _merge_listing_data valid existing_row new_listing
  ∧ _merge_listing_data valid existing_row existing_row = existing_row.
Proof.
  split; apply map_eq; intros k; rewrite !merge_lookup; unfold merged_entry.
  - destruct (new_listing !! k) as [w|]; [|done].
    destruct (valid k); simpl; [|done].
    destruct (_is_empty_value w); simpl; [|done].
    by destruct (existing_row !! k).
  - destruct (existing_row !! k) as [v|]; [|done].
    destruct (valid k); simpl; [|done]. by destruct (_is_empty_value v).
Qed.

Lemma convert_lookup (result : record) (k : string) :
  convert_result_to_row valid result !! k
  = if valid k then convert_value <$> result !! k else None.
Proof.
  unfold convert_result_to_row. rewrite lookup_fmap.
  destruct (valid k) eqn:Hvalid.
  - destruct (result !! k) as [v|] eqn:Hk.
    + by rewrite (map_lookup_filter_Some_2 _ _ k v).
    + rewrite (map_lookup_filter_None_2 _ _ k); [done|]. by left.
  - rewrite (map_lookup_filter_None_2 _ _ k); [done|].
    right. intros v _. simpl. by rewrite Hvalid.
Qed.

Lemma convert_value_idem (v : pyval) : convert_value (convert_value v) = convert_value v.
Proof. destruct v as [| | | |[|x items]|]; done. Qed.

(** X4. [convert_result_to_row] keeps exactly the valid keys, leaves no list
    or dict among the values (a list becomes its joined text or None, a dict
    its JSON text), and converting a converted row changes nothing. *)
Theorem convert_result_to_row_flat (result : record) :
  dom (convert_result_to_row valid result) = valid_keys valid result
  ∧ (∀ k v, convert_result_to_row valid result !! k = Some v →
            match v with VList _ | VDict _ => False | _ => True end)
  ∧ convert_result_to_row valid (convert_result_to_row valid result)
    = convert_result_to_row valid result.
Proof.
  split; [|split].
  - apply set_eq. intros k.
    rewrite elem_of_dom, elem_of_valid_keys, convert_lookup.
    destruct (valid k); [|split; [by intros [? ?]|by intros [? _]]].
    rewrite fmap_is_Some. split; [by intros ?; split|by intros [_ ?]].
  - intros k v. rewrite convert_lookup. destruct (valid k); [|done].
    destruct (result !! k) as [x|]; [|done]. simpl. intros [= <-].
    by destruct x as [| | | |[|y items]|].
  - apply map_eq. intros k. rewrite !convert_lookup.
    destruct (valid k); [|done]. rewrite <- option_fmap_compose.
    apply option_fmap_ext. intros x. apply convert_value_idem.
Qed.

End MergeMore.

(** ** Sorted field names *)

Section Sorting.

Context {A : Type} (le : A → A → bool).
Hypothesis le_total : ∀ a b, le a b ∨ le b a.
Hypothesis le_trans : ∀ a b c, le a b → le b c → le a c.

Lemma insert_sorted_sorted (x : A) (l : list A) :
  StronglySorted (λ a b, le a b) l → StronglySorted (λ a b, le a b) (insert_sorted le x l).
Proof.
  induction 1 as [|y l Hl IH Hy]; simpl.
  - repeat constructor.
  - destruct (le x y) eqn:Hxy.
    + constructor; [by constructor|]. constructor; [by rewrite Hxy|].
      eapply Forall_impl; [exact Hy|]. intros z Hz. eapply le_trans; [|exact Hz].
      by rewrite Hxy.
    + constructor; [done|]. rewrite insert_sorted_perm. constructor; [|done].
      destruct (le_total x y) as [Hle|Hle]; [by rewrite Hxy in Hle|done].
Qed.

Lemma py_sorted_sorted (l : list A) : StronglySorted (λ a b, le a b) (py_sorted le l).
Proof.
  induction l as [|x l IH]; simpl; [constructor|]. by apply insert_sorted_sorted.
Qed.

End Sorting.

Lemma sorted_fieldnames_sorted (s : gset string) :
  StronglySorted String.le (sorted_fieldnames s).
Proof.
  apply (py_sorted_sorted String.leb).
  - intros a b. apply (String.le_total a b).
  - intros a b c. apply (transitivity (R:=String.le)).
Qed.

Lemma sorted_fieldnames_NoDup (s : gset string) : NoDup (sorted_fieldnames s).
Proof. unfold sorted_fieldnames. rewrite py_sorted_perm. apply NoDup_elements. Qed.

Lemma sorted_fieldnames_of_sorted (l : list string) :
  StronglySorted String.le l → NoDup l → sorted_fieldnames (list_to_set l) = l.
Proof.
  intros Hsorted Hnodup.
  apply (StronglySorted_unique String.le); [apply sorted_fieldnames_sorted|done|].
  unfold sorted_fieldnames. rewrite py_sorted_perm. by apply elements_list_to_set.
Qed.

Lemma filter_sorted (p : string → bool) (l : list string) :
  StronglySorted String.le l → StronglySorted String.le (List.filter p l).
Proof.
  induction 1 as [|x l Hl IH Hx]; simpl; [constructor|].
  destruct (p x); [|done]. constructor; [done|].
  apply Forall_forall. intros y Hy. apply list_elem_of_In, filter_In in Hy as [Hy _].
  rewrite Forall_forall in Hx. by apply Hx, list_elem_of_In.
Qed.

Lemma filter_NoDup (p : string → bool) (l : list string) :
  NoDup l → NoDup (List.filter p l).
Proof.
  induction 1 as [|x l Hx Hl IH]; simpl; [constructor|].
  destruct (p x); [|done]. constructor; [|done].
  intros Hin. apply Hx. apply list_elem_of_In, filter_In in Hin as [Hin _].
  by apply list_elem_of_In.
Qed.

Section FieldNames.

Variable valid : string → bool.

Lemma elem_of_listings_keys (listings : list record) (acc : gset string) (f : string) :
  f ∈ foldl (λ fieldnames listing, fieldnames ∪ valid_keys valid listing) acc listings
  ↔ f ∈ acc ∨ ∃ listing, listing ∈ listings ∧ f ∈ valid_keys valid listing.
Proof.
  revert acc. induction listings as [|l listings IH]; intros acc; simpl.
  - split; [by left|]. intros [?|(l & Hl & _)]; [done|]. by apply elem_of_nil in Hl.
  - rewrite IH, elem_of_union. split.
    + intros [[?|?]|(x & Hx & Hf)]; [by left| |].
      * right. exists l. split; [left|done].
      * right. exists x. split; [by right|done].
    + intros [?|(x & Hx & Hf)]; [by left; left|].
      apply elem_of_cons in Hx as [->|Hx]; [by left; right|]. right. eauto.
Qed.

(** X5. [get_all_fieldnames] returns the valid keys of the listings, each
    once, in ascending order: a name is in the result exactly when it is
    valid and a key of one of the listings. *)
Theorem get_all_fieldnames_sorted_set (listings : list record) :
  StronglySorted String.le (get_all_fieldnames valid listings)
  ∧ NoDup (get_all_fieldnames valid listings)
  ∧ ∀ f, f ∈ get_all_fieldnames valid listings
         ↔ valid f = true ∧ ∃ listing, listing ∈ listings ∧ is_Some (listing !! f).
Proof.
  unfold get_all_fieldnames. split; [apply sorted_fieldnames_sorted|].
  split; [apply sorted_fieldnames_NoDup|]. intros f.
  rewrite elem_of_sorted_fieldnames, elem_of_listings_keys. split.
  - intros [Hf|(l & Hl & Hf)]; [by apply elem_of_empty in Hf|].
    apply elem_of_valid_keys in Hf as [? ?]. eauto.
  - intros [Hvalid (l & Hl & Hf)]. right. exists l. split; [done|].
    by apply elem_of_valid_keys.
Qed.

End FieldNames.

(** ** Technical failures and the lock *)

Lemma two_keys_dom (listing : record) (a b : string) :
  a ≠ b → size listing = 2%nat → is_Some (listing !! a) → is_Some (listing !! b) →
  dom listing = ({[a; b]} : gset string).
Proof.
  intros Hab Hsize Ha Hb. symmetry. apply leibniz_equiv.
  apply set_subseteq_size_equiv.
  - intros k Hk. apply elem_of_dom.
    apply elem_of_union in Hk as [Hk|Hk]; apply elem_of_singleton in Hk; by subst.
  - rewrite size_dom, Hsize, size_union, !size_singleton; [done|].
    intros k Hka Hkb. apply elem_of_singleton in Hka, Hkb. congruence.
Qed.

(** X6. [_is_technical_error] holds exactly for the records whose keys are
    [error] and [url] and nothing else, and whose error text has one of the
    keywords or more than 500 characters. The second form of the key test
    (two keys, among them [error] and [url]) accepts nothing the first
    does not. *)
Theorem technical_error_iff_marker (listing : record) :
  _is_technical_error listing = true ↔ technical_failure_marker listing.
Proof.
  split; [|apply technical_marker_detected].
  unfold _is_technical_error, technical_failure_marker.
  destruct (bool_decide (dom listing = {["error"; "url"]})
            || (size listing =? 2)%nat && dict_has listing "error"
               && dict_has listing "url") eqn:Hshape; [|done].
  assert (dom listing = ({["error"; "url"]} : gset string)) as Hdom.
  { apply orb_true_iff in Hshape as [Hdom|Hthree]; [by apply bool_decide_eq_true in Hdom|].
    apply andb_true_iff in Hthree as [Htwo Hurl].
    apply andb_true_iff in Htwo as [Hsize Herror].
    apply two_keys_dom; [done|by apply Nat.eqb_eq| |];
      by eapply bool_decide_eq_true. }
  intros Htext. split; [done|].
  assert (is_Some (listing !! "error")) as [e He].
  { apply elem_of_dom. rewrite Hdom. apply elem_of_union_l. by apply elem_of_singleton. }
  unfold dict_get. unfold dict_get_or in Htext. rewrite He in *.
  cbn [from_option id default] in *.
  destruct (existsb (λ keyword, PyStr.contains keyword (PyStr.lower (py_str e)))
                    technical_keywords) eqn:Hkey.
  - left. apply existsb_exists in Hkey as (keyword & Hin & Hhas).
    exists keyword. split; [by apply list_elem_of_In|done].
  - right. by apply Nat.ltb_lt.
Qed.

Lemma acquire_loop_spec (marker_at : nat → bool) (fuel polls : nat) :
  let run := acquire_loop marker_at fuel polls in
  (polls ≤ run.1 ≤ polls + fuel)%nat
  ∧ (∀ k, (polls ≤ k < run.1)%nat → marker_at k = true)
  ∧ run.2 = marker_at run.1
  ∧ (run.2 = true → run.1 = (polls + fuel)%nat).
Proof.
  revert polls. induction fuel as [|fuel IH]; intros polls; simpl.
  - destruct (marker_at polls) eqn:Hm; simpl; repeat split; intros; try lia; done.
  - destruct (marker_at polls) eqn:Hm; simpl.
    + destruct (IH (S polls)) as (Hbound & Hheld & Hlast & Hfull).
      split; [lia|]. split; [|split; [done|]].
      * intros k Hk. destruct (decide (k = polls)) as [->|Hne]; [done|].
        apply Hheld. lia.
      * intros Hstill. rewrite (Hfull Hstill). lia.
    + repeat split; intros; try lia; done.
Qed.

(** X7. [_acquire_lock] leaves the store file alone and never sleeps more
    often than the ceiling allows. It returns in both cases, with the marker
    still there exactly when the marker was there at the start and nobody
    removed it within the ceiling; the caller is not told which. *)
Theorem acquire_lock_waits_within_ceiling (io : io_env) (w : world) :
  store_file (_acquire_lock io w) = store_file w
  ∧ lock_file (_acquire_lock io w)
    = lock_file w && match lock_released_after io with
                     | Some n => (max_polls io <? n)%nat
                     | None => true
                     end
  ∧ ∀ marker_at fuel, ((acquire_loop marker_at fuel 0).1 ≤ fuel)%nat.
Proof.
  split; [done|]. split.
  - unfold _acquire_lock. cbn [lock_file].
    set (marker_at := λ polls : nat, lock_file w && _).
    destruct (acquire_loop_spec marker_at (max_polls io) 0) as (Hbound & Hheld & Hlast & Hfull).
    cbn zeta in *. destruct (acquire_loop marker_at (max_polls io) 0) as [slept still] eqn:Hrun.
    cbn [fst snd] in *. subst still.
    destruct (marker_at slept) eqn:Hm.
    + rewrite (Hfull eq_refl) in Hm. symmetry. exact Hm.
    + subst marker_at. cbn beta in *.
      destruct (lock_file w); [|done]. cbn [andb] in *.
      destruct (lock_released_after io) as [n|]; [|done].
      symmetry. apply Nat.ltb_ge. apply Nat.ltb_ge in Hm. lia.
  - intros marker_at fuel.
    pose proof (acquire_loop_spec marker_at fuel 0) as [Hbound _]. cbn zeta in Hbound. lia.
Qed.

(** ** The shape of the written file *)

Section FileShape.

Variable valid : string → bool.

Lemma row_cells_length (all_fieldnames : list string) (listing_data : record) :
  length (row_cells valid all_fieldnames listing_data) = length all_fieldnames.
Proof. unfold row_cells. by rewrite length_map. Qed.

Lemma sorted_items_length (existing_data : store) :
  length (sorted_items existing_data) = size existing_data.
Proof.
  unfold sorted_items. rewrite py_sorted_perm. by rewrite length_map_to_list.
Qed.

Lemma written_file_rectangular (header : list string) (existing_data : store) :
  ∃ rows, written_file valid header existing_data = header :: rows
          ∧ length rows = size existing_data
          ∧ Forall (λ row, length row = length header) rows.
Proof.
  eexists. split; [done|]. split.
  - by rewrite length_map, sorted_items_length.
  - apply Forall_forall. intros row Hrow. apply list_elem_of_fmap in Hrow as (item & -> & _).
    apply row_cells_length.
Qed.

Lemma upsert_size (existing_data : store) (url : string) (listing : record) :
  size (upsert_listing valid existing_data url listing)
  = (size existing_data + match existing_data !! url with Some _ => 0 | None => 1 end)%nat.
Proof.
  unfold upsert_listing. destruct (existing_data !! url) as [row|] eqn:Hrow.
  - rewrite map_size_insert_Some by eauto. lia.
  - rewrite map_size_insert_None by done. lia.
Qed.

(** X8. Whenever [save_single_listing] changes the store file, it returns
    normally and the new file is a header followed by rows: the header is not
    empty, ascending, without repetition, made of valid names, and holds
    every valid key of the record; there is one row for each identity read
    from the old file, and one more when the url of the record is new; every
    row is as wide as the header. *)
Theorem save_single_listing_file_shape (io : io_env) (w : world) (listing : record) :
  store_file (save_single_listing valid io w listing).2 = store_file w
  ∨ ∃ url header rows,
      dict_get listing "url" = VStr url
      ∧ (save_single_listing valid io w listing).1 = Returned
      ∧ store_file (save_single_listing valid io w listing).2 = Some (header :: rows)
      ∧ header ≠ [] ∧ StronglySorted String.le header ∧ NoDup header
      ∧ Forall (λ f, valid f = true) header
      ∧ (∀ f, f ∈ valid_keys valid listing → f ∈ header)
      ∧ (let existing_data := (_read_existing_data valid (read_fails io) (store_file w)).1 in
         length rows = (size existing_data + match existing_data !! url with Some _ => 0 | None => 1 end)%nat)
      ∧ Forall (λ row, length row = length header) rows.
Proof.
  unfold save_single_listing.
  destruct (save_single_rejects listing); [by left|].
  destruct (save_single_try_file valid io (_acquire_lock io w) listing)
    as [Hsame|(url & Hurl & Hheader & Htry)].
  - left. destruct (save_single_try _ _ _ _) as [out w']. cbn [snd] in *.
    by rewrite release_lock_store_file.
  - right. cbn zeta in *. rewrite Htry. cbn [fst snd].
    rewrite release_lock_store_file. cbn [store_file].
    change (store_file (_acquire_lock io w)) with (store_file w) in *.
    set (snapshot := (_read_existing_data valid _ _).1) in *.
    set (data := upsert_listing valid snapshot url listing) in *.
    destruct (written_file_rectangular
                (sorted_fieldnames (store_fieldnames valid data ∪ valid_keys valid listing))
                data)
      as (rows & Hfile & Hlen & Hwide).
    exists url, (sorted_fieldnames (store_fieldnames valid data ∪ valid_keys valid listing)),
           rows.
    split; [done|]. split; [done|]. split; [by rewrite Hfile|]. split; [exact Hheader|].
    split; [apply sorted_fieldnames_sorted|]. split; [apply sorted_fieldnames_NoDup|].
    split; [apply sorted_union_valid|]. split.
    { intros f Hf. apply elem_of_sorted_fieldnames. by apply elem_of_union_r. }
    split; [|done]. rewrite Hlen. apply upsert_size.
Qed.

(** X9. Whenever [save_listings_batch] changes the store file, it returns
    normally and the new file is a header that is not empty, ascending,
    without repetition and made of valid names, followed by one row for each
    identity in memory after the whole batch has been merged, every row as
    wide as the header. *)
Theorem save_listings_batch_file_shape (io : io_env) (file : option csv_file)
    (listings : list record) :
  (save_listings_batch valid io file listings).2 = file
  ∨ ∃ header rows,
      save_listings_batch valid io file listings = (Returned, Some (header :: rows))
      ∧ header ≠ [] ∧ StronglySorted String.le header ∧ NoDup header
      ∧ Forall (λ f, valid f = true) header
      ∧ length rows
        = size (foldl (upsert_if_url valid)
                      (_read_existing_data valid (read_fails io) file).1 listings)
      ∧ Forall (λ row, length row = length header) rows.
Proof.
  unfold save_listings_batch.
  destruct listings as [|listing rest]; [by left|].
  destruct (_read_existing_data valid (read_fails io) file) as [snapshot fields].
  destruct (batch_loop valid snapshot (listing :: rest)) as [after|] eqn:Hloop;
    [|by left].
  apply batch_loop_is_fold in Hloop as ->. cbn [fst].
  set (data := foldl (upsert_if_url valid) snapshot (listing :: rest)).
  set (names := list_to_set fields ∪ store_fieldnames valid data).
  pose proof (sorted_fieldnames_sorted names) as Hsorted.
  pose proof (sorted_fieldnames_NoDup names) as Hnodup.
  destruct (sorted_fieldnames names) as [|name others] eqn:Hnames; [by left|].
  pose proof (filter_sorted valid _ Hsorted) as Hsorted'.
  pose proof (filter_NoDup valid _ Hnodup) as Hnodup'.
  pose proof (filter_keeps_valid valid (name :: others)) as Hvalid.
  destruct (List.filter valid (name :: others)) as [|h header] eqn:Hfilter; [by left|].
  destruct (write_error io); [by left|].
  right. destruct (written_file_rectangular (h :: header) data)
    as (rows & Hfile & Hlen & Hwide).
  exists (h :: header), rows. rewrite Hfile. done.
Qed.

End FileShape.

(** ** The order of a batch; a read that fails *)

Section BatchOrder.

Variable valid : string → bool.

Lemma upsert_listing_comm (existing_data : store) (u1 u2 : string) (a b : record) :
  u1 ≠ u2 →
  upsert_listing valid (upsert_listing valid existing_data u1 a) u2 b
  = upsert_listing valid (upsert_listing valid existing_data u2 b) u1 a.
Proof.
  intros Hne. unfold upsert_listing.
  destruct (existing_data !! u1) as [r1|] eqn:H1;
    destruct (existing_data !! u2) as [r2|] eqn:H2;
    rewrite !lookup_insert_ne, ?H1, ?H2 by done; by apply insert_insert_ne.
Qed.

Lemma upsert_if_url_comm (existing_data : store) (a b : record) :
  dict_get a "url" ≠ dict_get b "url" →
  upsert_if_url valid (upsert_if_url valid existing_data a) b
  = upsert_if_url valid (upsert_if_url valid existing_data b) a.
Proof.
  intros Hne. unfold upsert_if_url.
  destruct (dict_get a "url") as [| | |ua| |]; try done;
    destruct (dict_get b "url") as [| | |ub| |]; try done;
    try by destruct (PyStr.is_empty _).
  destruct (PyStr.is_empty ua), (PyStr.is_empty ub); try done.
  apply upsert_listing_comm. congruence.
Qed.

Lemma batch_loop_of_str_urls (listings : list record) (existing_data : store) :
  Forall (λ listing, ∃ url, dict_get listing "url" = VStr url) listings →
  batch_loop valid existing_data listings
  = inl (foldl (upsert_if_url valid) existing_data listings).
Proof.
  intros Hstr. revert existing_data.
  induction Hstr as [|listing rest [url Hurl] _ IH]; intros existing_data; simpl; [done|].
  assert (batch_step valid existing_data listing
          = inl (upsert_if_url valid existing_data listing)) as ->; [|apply IH].
  unfold batch_step, upsert_if_url, upsert_listing. rewrite Hurl.
  destruct url; simpl; [done|]. by destruct (existing_data !! _).
Qed.

Lemma foldl_upsert_perm (l1 l2 : list record) :
  l1 ≡ₚ l2 → NoDup ((λ listing, dict_get listing "url") <$> l1) →
  ∀ existing_data,
    foldl (upsert_if_url valid) existing_data l1
    = foldl (upsert_if_url valid) existing_data l2.
Proof.
  induction 1 as [|x l1 l2 Hperm IH|x y l|l1 l2 l3 H12 IH12 H23 IH23]; intros Hnodup s.
  - done.
  - simpl. apply IH. by apply NoDup_cons in Hnodup as [_ ?].
  - simpl. f_equal. apply upsert_if_url_comm.
    rewrite !fmap_cons in Hnodup. apply NoDup_cons in Hnodup as [Hy _].
    intros Heq. apply Hy. rewrite Heq. left.
  - rewrite IH12 by done. apply IH23. by rewrite <- H12.
Qed.

(** X10. The order of a batch does not matter when its records carry
    different urls: [save_listings_batch] ends in the same way and leaves the
    same file for every arrangement of such a batch. *)
Theorem batch_order_is_irrelevant (io : io_env) (file : option csv_file)
    (listings reordered : list record) :
  listings ≡ₚ reordered →
  Forall (λ listing, ∃ url, dict_get listing "url" = VStr url) listings →
  NoDup ((λ listing, dict_get listing "url") <$> listings) →
  save_listings_batch valid io file listings = save_listings_batch valid io file reordered.
Proof.
  intros Hperm Hstr Hnodup.
  assert (Forall (λ listing, ∃ url, dict_get listing "url" = VStr url) reordered) as Hstr'
    by by rewrite <- Hperm.
  unfold save_listings_batch.
  destruct listings as [|a l1]; destruct reordered as [|b l2].
  - done.
  - by apply Permutation_nil_cons in Hperm.
  - symmetry in Hperm. by apply Permutation_nil_cons in Hperm.
  - destruct (_read_existing_data valid (read_fails io) file) as [snapshot fields].
    rewrite !batch_loop_of_str_urls by done.
    by rewrite (foldl_upsert_perm _ _ Hperm Hnodup snapshot).
Qed.

Lemma store_fieldnames_singleton (url : string) (listing : record) :
  store_fieldnames valid (<[url := listing]> ∅) = valid_keys valid listing.
Proof.
  apply set_eq. intros f. rewrite elem_of_store_fieldnames. split.
  - intros (key & row & Hlook & Hf).
    apply lookup_insert_Some in Hlook as [[_ <-]|[_ Hlook]]; [done|].
    by rewrite lookup_empty in Hlook.
  - intros Hf. exists url, listing. by rewrite lookup_insert_eq.
Qed.

(** X11. When the store file cannot be read, [_read_existing_data] answers
    with no rows and [save_single_listing] goes on: the file it writes holds
    the header and the row of the incoming record and nothing else, whatever
    the file held before. *)
Theorem failed_read_drops_stored_rows (io : io_env) (w : world) (listing : record)
    (url : string) :
  read_fails io = true → touch_error io = None → write_error io = None →
  save_single_rejects listing = None →
  dict_get listing "url" = VStr url → valid "url" = true →
  let header := sorted_fieldnames (valid_keys valid listing) in
  (save_single_listing valid io w listing).1 = Returned
  ∧ store_file (save_single_listing valid io w listing).2
    = Some [header; row_cells valid header listing].
Proof.
  intros Hread Htouch Hwrite Hrej Hurl Hvalid header.
  assert (header ≠ []) as Hheader.
  { intros Hnil. apply sorted_fieldnames_nil in Hnil.
    apply (not_elem_of_empty (C:=gset string) "url"). rewrite <- Hnil.
    apply elem_of_valid_keys. split; [done|].
    unfold dict_get in Hurl. destruct (listing !! "url"); [eauto|done]. }
  assert (save_single_listing valid io w listing
          = (Returned,
             release_lock io (World (Some [header; row_cells valid header listing]) true)))
    as ->; [|split; [done|cbn [snd]; by rewrite release_lock_store_file]].
  unfold save_single_listing. rewrite Hrej. unfold save_single_try.
  rewrite Htouch, Hread. cbn [store_file _acquire_lock].
  assert (_read_existing_data valid true (store_file w) = (∅, [])) as ->.
  { unfold _read_existing_data. by destruct (store_file w) as [[|? ?]|]. }
  rewrite Hurl. unfold upsert_listing. rewrite lookup_empty.
  rewrite store_fieldnames_singleton.
  assert (valid_keys valid listing ∪ valid_keys valid listing = valid_keys valid listing)
    as -> by (apply leibniz_equiv, union_idemp; apply _).
  fold header. destruct header as [|name names]; [done|].
  rewrite Hwrite. unfold written_file, sorted_items.
  rewrite insert_empty, map_to_list_singleton. done.
Qed.

End BatchOrder.

Lemma batch_order_is_irrelevant_witness :
  save_listings_batch is_valid_fieldname io_quiet (Some file_with_one_row)
    [record_with_title; listing_updated]
  = save_listings_batch is_valid_fieldname io_quiet (Some file_with_one_row)
      [listing_updated; record_with_title].
Proof.
  apply (batch_order_is_irrelevant is_valid_fieldname io_quiet (Some file_with_one_row)
           [record_with_title; listing_updated] [listing_updated; record_with_title]).
  - apply Permutation_swap.
  - repeat constructor; eexists; vm_compute; reflexivity.
  - vm_compute. apply NoDup_cons. split; [|apply NoDup_singleton].
    intros Hin. apply list_elem_of_singleton in Hin. discriminate Hin.
Defined.


Lemma failed_read_drops_stored_rows_witness :
  store_file world_with_one_row = Some [["price"; "url"]; ["100"; "A"]]
  ∧ store_file (save_single_listing is_valid_fieldname
                  (IoEnv true None None None None 100) world_with_one_row
                  (<["url" := VStr "B"]> ∅)).2
    = Some [["url"]; ["B"]].
Proof.
  split; [reflexivity|].
  pose proof (failed_read_drops_stored_rows is_valid_fieldname
                (IoEnv true None None None None 100) world_with_one_row
                (<["url" := VStr "B"]> ∅) "B"
                eq_refl eq_refl eq_refl) as Hloss.
  destruct Hloss as [_ Hfile]; [vm_compute; reflexivity..|].
  rewrite Hfile. vm_compute. reflexivity.
Defined.

(** ** Rows read from a file with a header *)

Section ReadFacts.

Variable valid : string → bool.

Lemma dictreader_row_dom (fieldnames cells : list string) (k : string) :
  is_Some (dictreader_row fieldnames cells !! k) → k ∈ fieldnames.
Proof.
  unfold dictreader_row.
  assert (∀ (l : list (string * string)) (d : record),
            is_Some (foldl (λ d kv, <[kv.1 := VStr kv.2]> d) d l !! k) →
            is_Some (d !! k) ∨ k ∈ l.*1) as Hzip.
  { induction l as [|kv l IH]; intros d; simpl; [by left|].
    intros Hk. apply IH in Hk as [Hk|Hk]; [|by right; right].
    destruct (decide (k = kv.1)) as [->|Hne]; [right; left|].
    left. by rewrite lookup_insert_ne in Hk. }
  assert (∀ (l : list string) (d : record),
            is_Some (foldl (λ d k, <[k := VNone]> d) d l !! k) →
            is_Some (d !! k) ∨ k ∈ l) as Hrest.
  { induction l as [|x l IH]; intros d; simpl; [by left|].
    intros Hk. apply IH in Hk as [Hk|Hk]; [|by right; right].
    destruct (decide (k = x)) as [->|Hne]; [right; left|].
    left. by rewrite lookup_insert_ne in Hk. }
  intros Hk. apply Hrest in Hk as [Hk|Hk].
  - apply Hzip in Hk as [Hk|Hk]; [by rewrite lookup_empty in Hk; destruct Hk|].
    apply list_elem_of_fmap in Hk as ([k' cell] & -> & Hin). by apply elem_of_zip_l in Hin.
  - by apply (subseteq_drop (length cells)) in Hk.
Qed.

Lemma make_row_copy_fold (fieldnames : list string) (row acc : record) (k : string) :
  Forall (λ f, valid f = true) fieldnames →
  foldl (λ row_copy fieldname,
           if valid fieldname
           then <[fieldname := header_cell (dict_get_or row fieldname (VStr EmptyString))]>
                  row_copy
           else row_copy) acc fieldnames !! k
  = if decide (k ∈ fieldnames)
    then Some (header_cell (dict_get_or row k (VStr EmptyString))) else acc !! k.
Proof.
  intros Hvalid. revert acc.
  induction Hvalid as [|x l Hx _ IH]; intros acc.
  - rewrite decide_False; [done|]. apply not_elem_of_nil.
  - cbn [foldl]. rewrite Hx, IH. destruct (decide (k = x)) as [->|Hkx].
    + rewrite (decide_True (P := x ∈ x :: l)) by left.
      case_decide; [done|]. by rewrite lookup_insert_eq.
    + rewrite lookup_insert_ne by done.
      case_decide as Hin; case_decide as Hin'; try done.
      * exfalso. apply Hin'. by right.
      * exfalso. apply Hin. by apply elem_of_cons in Hin' as [?|?].
Qed.

Lemma make_row_copy_lookup (existing_fieldnames : list string) (row : record) (k : string) :
  existing_fieldnames ≠ [] → Forall (λ f, valid f = true) existing_fieldnames →
  make_row_copy valid existing_fieldnames row !! k
  = if decide (k ∈ existing_fieldnames)
    then Some (header_cell (dict_get_or row k (VStr EmptyString))) else None.
Proof.
  intros Hne Hvalid. unfold make_row_copy.
  destruct existing_fieldnames as [|f fs] eqn:Hfields; [done|]. rewrite <- Hfields in *.
  by rewrite make_row_copy_fold, lookup_empty.
Qed.

Lemma make_row_copy_no_fields (raw_fieldnames cells : list string) :
  filter_valid_fieldnames valid raw_fieldnames = [] →
  make_row_copy valid [] (dictreader_row raw_fieldnames cells) = ∅.
Proof.
  intros Hnone. unfold make_row_copy. apply map_eq. intros k.
  rewrite lookup_fmap, lookup_empty.
  rewrite (map_lookup_filter_None_2 _ _ k); [done|].
  right. intros v Hv. simpl. intros Hvalid.
  assert (k ∈ filter_valid_fieldnames valid raw_fieldnames) as Hin.
  { apply list_elem_of_In, filter_In. split; [|done].
    apply list_elem_of_In. eapply dictreader_row_dom. eauto. }
  rewrite Hnone in Hin. by apply elem_of_nil in Hin.
Qed.

Lemma header_cell_shape (value : pyval) :
  header_cell value = VNone
  ∨ ∃ text, header_cell value = VStr (PyStr.strip text) ∧ PyStr.strip text ≠ EmptyString.
Proof.
  destruct value as [| | |s| |]; try by left. simpl.
  destruct (PyStr.is_empty s); [by left|]. simpl.
  destruct (PyStr.strip s) eqn:Hstrip; [by left|]. right. exists s. by rewrite Hstrip.
Qed.

(** X12. From a file with a header, [_read_existing_data] keeps the valid
    names of the header as field names, and every row it loads has exactly
    these names as keys, holds None or a stripped text that is not empty
    under each of them, and is not empty as a whole. *)
Theorem read_rows_follow_the_header (raw_fieldnames : list string) (data_rows : csv_file) :
  let file := raw_fieldnames :: data_rows in
  _detect_has_headers (first_line_of file) = true →
  let existing_data := (_read_existing_data valid false (Some file)).1 in
  let existing_fieldnames := (_read_existing_data valid false (Some file)).2 in
  existing_fieldnames = List.filter valid raw_fieldnames
  ∧ ∀ key row, existing_data !! key = Some row →
      dom row = list_to_set existing_fieldnames
      ∧ is_empty_row row = false
      ∧ ∀ k v, row !! k = Some v →
          v = VNone ∨ ∃ text, v = VStr (PyStr.strip text) ∧ PyStr.strip text ≠ EmptyString.
Proof.
  intros file Hheader. unfold _read_existing_data. subst file. rewrite Hheader.
  cbn [fst snd]. split; [done|].
  set (fields := filter_valid_fieldnames valid raw_fieldnames).
  assert (Forall (λ f, valid f = true) fields) as Hvalid by apply filter_keeps_valid.
  set (good := λ row : record,
         dom row = (list_to_set fields : gset string)
         ∧ is_empty_row row = false
         ∧ ∀ k v, row !! k = Some v →
             v = VNone
             ∨ ∃ text, v = VStr (PyStr.strip text) ∧ PyStr.strip text ≠ EmptyString).
  assert (∀ cells, is_empty_row (make_row_copy valid fields (dictreader_row raw_fieldnames cells))
                   = false →
                   good (make_row_copy valid fields (dictreader_row raw_fieldnames cells)))
    as Hcopy.
  { intros cells Hfull. destruct (decide (fields = [])) as [Hnil|Hne].
    { rewrite Hnil, make_row_copy_no_fields in Hfull by done. done. }
    split; [|split; [done|]].
    - apply set_eq. intros k. rewrite elem_of_dom, elem_of_list_to_set.
      rewrite make_row_copy_lookup by done. case_decide; [by split; eauto|].
      split; [by intros [? ?]|done].
    - intros k v. rewrite make_row_copy_lookup by done. case_decide; [|done].
      intros [= <-]. apply header_cell_shape. }
  assert (∀ rows st, (∀ key row, st.1 !! key = Some row → good row) →
            ∀ key row,
              (foldl (read_header_row valid raw_fieldnames fields) st rows).1 !! key = Some row →
              good row) as Hloop.
  { induction rows as [|cells rows IH]; intros st Hst; [done|]. simpl. apply IH.
    unfold read_header_row. destruct cells as [|cell cells]; [done|].
    destruct st as [data count]. cbn [fst] in Hst.
    set (row_copy := make_row_copy valid fields _).
    destruct (is_empty_row row_copy) eqn:Hempty; [done|].
    pose proof (Hcopy _ Hempty) as Hgood.
    assert (∀ where_, ∀ key row, <[where_ := row_copy]> data !! key = Some row → good row)
      as Hins.
    { intros where_ key row Hlook.
      apply lookup_insert_Some in Hlook as [[_ <-]|[_ Hlook]]; [done|by eapply Hst]. }
    destruct (negb _); [apply Hins|]. destruct (List.find _ _); apply Hins. }
  apply Hloop. cbn [fst]. intros key row Hlook. by rewrite lookup_empty in Hlook.
Qed.

End ReadFacts.

(** ** The page writer and the result writer *)

Section WriterFacts.

Variable valid : string → bool.

Lemma get_all_fieldnames_valid (listings : list record) :
  Forall (λ f, valid f = true) (get_all_fieldnames valid listings).
Proof.
  apply Forall_forall. intros f Hf.
  apply elem_of_sorted_fieldnames, elem_of_listings_keys in Hf as [Hf|(l & _ & Hf)].
  - by apply elem_of_empty in Hf.
  - by apply elem_of_valid_keys in Hf as [? _].
Qed.

(** X13. [save_page_listings] on a file whose header is ascending, without
    repetition and valid, and holds every field name of the page, leaves the
    records of the file in place and appends one row for each listing of the
    page, laid out along that header. *)
Theorem save_page_listings_fits_header (io : io_env) (header : list string)
    (rows : csv_file) (page_listings : list record) :
  page_listings ≠ [] → write_error io = None → read_fails io = false →
  StronglySorted String.le header → NoDup header →
  Forall (λ f, valid f = true) header →
  (∀ f, f ∈ get_all_fieldnames valid page_listings → f ∈ header) →
  save_page_listings valid io (Some (header :: rows)) page_listings
  = (Returned, Some (header :: rows ++ map (row_cells valid header) page_listings)).
Proof.
  intros Hpage Hwrite Hread Hsorted Hnodup Hvalid Hsub. unfold save_page_listings.
  destruct page_listings as [|listing rest]; [done|].
  rewrite Hwrite, Hread. cbn [reader_fieldnames].
  unfold filter_valid_fieldnames. rewrite filter_all_valid by done.
  assert (list_to_set (get_all_fieldnames valid (listing :: rest)) ∪ list_to_set header
          = (list_to_set header : gset string)) as ->.
  { apply set_eq. intros f. rewrite elem_of_union, !elem_of_list_to_set.
    split; [intros [?|?]; auto|by right]. }
  by rewrite sorted_fieldnames_of_sorted.
Qed.

(** X14. [save_page_listings] never rewrites the header of a file that is
    there. When the page brings a valid field name the header does not have,
    the records of the file stay as they are, one row is appended for each
    listing, and every appended row has more cells than the header has
    names. *)
Theorem save_page_listings_outgrows_header (io : io_env) (header : list string)
    (rows : csv_file) (page_listings : list record) (fieldname : string) :
  write_error io = None → read_fails io = false →
  NoDup header → Forall (λ f, valid f = true) header →
  fieldname ∈ get_all_fieldnames valid page_listings → fieldname ∉ header →
  ∃ appended,
    save_page_listings valid io (Some (header :: rows)) page_listings
    = (Returned, Some (header :: rows ++ appended))
    ∧ length appended = length page_listings
    ∧ Forall (λ row, (length header < length row)%nat) appended.
Proof.
  intros Hwrite Hread Hnodup Hvalid Hnew Hfresh. unfold save_page_listings.
  destruct page_listings as [|listing rest].
  { unfold get_all_fieldnames in Hnew. simpl in Hnew.
    apply elem_of_sorted_fieldnames in Hnew. by apply elem_of_empty in Hnew. }
  rewrite Hwrite, Hread. cbn [reader_fieldnames].
  unfold filter_valid_fieldnames. rewrite filter_all_valid by done.
  set (names := sorted_fieldnames _).
  exists (map (row_cells valid names) (listing :: rest)).
  split; [done|]. split; [by rewrite length_map|].
  apply Forall_forall. intros row Hrow.
  apply list_elem_of_fmap in Hrow as (l & -> & _). rewrite row_cells_length.
  assert (fieldname :: header ⊆+ names) as Hsub.
  { apply NoDup_submseteq.
    - apply NoDup_cons. by split.
    - intros f Hf. apply elem_of_sorted_fieldnames, elem_of_union.
      rewrite !elem_of_list_to_set.
      apply elem_of_cons in Hf as [->|Hf]; [by left|by right]. }
  apply submseteq_length in Hsub. simpl in Hsub. lia.
Qed.

Lemma result_cells_row_cells (fieldnames : list string) (result : record) :
  result_cells valid fieldnames result = row_cells valid fieldnames result.
Proof.
  unfold result_cells, row_cells.
  set (row := convert_result_to_row valid result).
  assert (∀ (names : list string) (acc : record) (k : string),
            cell_text (dict_get_or
                         (foldl (λ row fieldname,
                                   if dict_has row fieldname then row
                                   else <[fieldname := VNone]> row) acc names)
                         k (VStr EmptyString))
            = cell_text (dict_get_or acc k (VStr EmptyString))) as Hfill.
  { induction names as [|name names IH]; intros acc k; simpl; [done|].
    rewrite IH. unfold dict_has. case_bool_decide as Hhas; [done|].
    unfold dict_get_or. destruct (decide (k = name)) as [->|Hne].
    - rewrite lookup_insert_eq. destruct (acc !! name) eqn:Hacc; [|done].
      exfalso. apply Hhas. eauto.
    - by rewrite lookup_insert_ne. }
  apply map_ext. intros k. by rewrite Hfill.
Qed.

Lemma flatten_plain_results (results : list record) :
  Forall (λ result, is_search_results result = false) results →
  flatten_results results = inl (map inl results).
Proof.
  induction 1 as [|result rest Hplain _ IH]; simpl; [done|]. by rewrite Hplain, IH.
Qed.

Lemma flattened_plain_records (results : list record) :
  flattened_records (map inl results) = inl results.
Proof. induction results as [|result rest IH]; simpl; [done|]. by rewrite IH. Qed.

(** X15. For results none of which is a search page, [save_results] writes
    what [save_page_listings] writes when there is no file: the header of the
    results and one row for each of them. What the file held before is
    gone. *)
Theorem save_results_ignores_previous_file (io : io_env) (file : option csv_file)
    (results : list record) :
  results ≠ [] → write_error io = None →
  Forall (λ result, is_search_results result = false) results →
  save_results valid io file results = save_page_listings valid io None results.
Proof.
  intros Hne Hwrite Hplain. unfold save_results, save_page_listings.
  destruct results as [|result rest]; [done|].
  rewrite flatten_plain_results by done. cbn [map].
  change (inl result :: map inl rest) with (map (inl (B:=pyval)) (result :: rest)).
  rewrite flattened_plain_records, Hwrite.
  rewrite (map_ext (result_cells valid _) (row_cells valid _))
    by (intros; apply result_cells_row_cells).
  done.
Qed.

End WriterFacts.

(** ** The command line *)

(** X16. The command line and the store agree on what an empty cell is:
    [_count_filled_indicators] counts the text of a cell as filled exactly
    when [_is_empty_value] says that the text is not empty. *)
Theorem indicator_filled_agrees_with_merge (row : record) (indicator raw : string) :
  dict_get_or row indicator (VStr EmptyString) = VStr raw →
  Main.indicator_filled row indicator = Some (negb (_is_empty_value (VStr raw))).
Proof.
  intros Hraw. unfold Main.indicator_filled. rewrite Hraw. f_equal.
  unfold _is_empty_value. destruct (PyStr.strip raw) as [|c rest]; [done|].
  cbn [PyStr.is_empty negb andb orb]. f_equal.
  apply bool_decide_ext. rewrite elem_of_cons. split; [|by right].
  by intros [?|?].
Qed.

Lemma indicator_filled_agrees_with_merge_witness :
  Main.indicator_filled (<["iptu" := VStr " None "]> ∅) "iptu" = Some false
  ∧ Main.indicator_filled (<["iptu" := VStr "R$ 120"]> ∅) "iptu" = Some true.
Proof.
  split.
  - rewrite (indicator_filled_agrees_with_merge _ "iptu" " None "); reflexivity.
  - rewrite (indicator_filled_agrees_with_merge _ "iptu" "R$ 120"); reflexivity.
Defined.

Lemma missing_urls_sound (fieldnames : list string) (rows : csv_file)
    (found : list string) (url : string) :
  Main.missing_urls_of fieldnames rows = Some found → url ∈ found →
  ∃ cells, cells ∈ rows
           ∧ Main.row_missing_url (dictreader_row fieldnames cells) = Some (Some url).
Proof.
  revert found. induction rows as [|cells rows IH]; intros found; simpl.
  - intros [= <-] Hin. by apply elem_of_nil in Hin.
  - destruct cells as [|cell cells].
    { intros Hrest Hin. destruct (IH _ Hrest Hin) as (c & Hc & Hrow).
      exists c. split; [by right|done]. }
    destruct (Main.row_missing_url _) as [here|] eqn:Hhere; [|done].
    destruct (Main.missing_urls_of fieldnames rows) as [later|]; [|done].
    intros [= <-] Hin. apply elem_of_app in Hin as [Hin|Hin].
    + exists (cell :: cells). split; [left|].
      destruct here as [u|]; simpl in Hin; [|by apply elem_of_nil in Hin].
      apply list_elem_of_singleton in Hin. by subst.
    + destruct (IH _ eq_refl Hin) as (c & Hc & Hrow). exists c. split; [by right|done].
Qed.

(** X17. Every URL that [get_missing_deep_search_urls] returns is the stripped
    [url] cell of a row of the file, is accepted by [is_listing_url], and
    comes from a row for which [_needs_deep_search] holds. *)
Theorem missing_urls_are_unenriched_listings (file : option csv_file) (url : string) :
  url ∈ Main.get_missing_deep_search_urls file →
  Main.is_listing_url url = true
  ∧ ∃ fieldnames rows cells raw,
      file = Some (fieldnames :: rows) ∧ cells ∈ rows
      ∧ dict_get (dictreader_row fieldnames cells) "url" = VStr raw
      ∧ url = PyStr.strip raw
      ∧ Main._needs_deep_search (dictreader_row fieldnames cells)
          Main.deep_search_indicators = Some true.
Proof.
  unfold Main.get_missing_deep_search_urls.
  destruct file as [[|fieldnames rows]|]; try (intros Hin; by apply elem_of_nil in Hin).
  destruct (Main.missing_urls_of fieldnames rows) as [found|] eqn:Hfound;
    [|intros Hin; by apply elem_of_nil in Hin].
  simpl. intros Hin.
  destruct (missing_urls_sound _ _ _ _ Hfound Hin) as (cells & Hcells & Hrow).
  unfold Main.row_missing_url in Hrow.
  destruct (dict_get_or (dictreader_row fieldnames cells) "url" (VStr EmptyString))
    as [| | |raw| |] eqn:Hraw; try done.
  destruct (PyStr.is_empty (PyStr.strip raw)) eqn:Hempty; [done|].
  destruct (Main.is_listing_url (PyStr.strip raw)) eqn:Hlisting; [|done].
  cbn [negb] in Hrow.
  destruct (Main._count_filled_indicators (dictreader_row fieldnames cells)
              Main.deep_search_indicators) as [n|] eqn:Hcount; [|done].
  destruct (n <? 2)%nat eqn:Hfew; [|done]. injection Hrow as <-.
  split; [done|]. exists fieldnames, rows, cells, raw.
  split; [done|]. split; [done|]. split; [|split; [done|]].
  - unfold dict_get_or in Hraw. unfold dict_get.
    destruct (dictreader_row fieldnames cells !! "url") as [v|]; [done|].
    injection Hraw as <-. done.
  - unfold Main._needs_deep_search. by rewrite Hcount, Hfew.
Qed.

Lemma missing_urls_raise (fieldnames : list string) (rows : csv_file) (cells : list string) :
  cells ∈ rows → cells ≠ [] →
  Main.row_missing_url (dictreader_row fieldnames cells) = None →
  Main.missing_urls_of fieldnames rows = None.
Proof.
  intros Hin Hne Hraise. induction rows as [|row rows IH]; [by apply elem_of_nil in Hin|].
  apply elem_of_cons in Hin as [<-|Hin].
  - destruct cells; [done|]. cbn [Main.missing_urls_of]. by rewrite Hraise.
  - destruct row as [|cell row]; cbn [Main.missing_urls_of]; rewrite (IH Hin); [done|].
    by destruct (Main.row_missing_url (dictreader_row fieldnames (cell :: row))).
Qed.

(** X18. One row of the file that is too short to reach the [url] column
    makes [get_missing_deep_search_urls] return the empty list, whatever the
    other rows hold: the reader gives None for the cell, [strip] fails on it,
    and the function answers every failure with the empty list. *)
Theorem short_row_hides_every_missing_url (fieldnames : list string) (rows : csv_file)
    (cells : list string) :
  cells ∈ rows → cells ≠ [] →
  dictreader_row fieldnames cells !! "url" = Some VNone →
  Main.get_missing_deep_search_urls (Some (fieldnames :: rows)) = [].
Proof.
  intros Hin Hne Hurl. unfold Main.get_missing_deep_search_urls.
  rewrite (missing_urls_raise fieldnames rows cells); [done..|].
  unfold Main.row_missing_url, dict_get_or. by rewrite Hurl.
Qed.

(** ** URLProcessor: the schedule of the retries *)

Lemma sleeps_of_app (a b : list event) : sleeps_of (a ++ b) = sleeps_of a ++ sleeps_of b.
Proof. unfold sleeps_of. apply omap_app. Qed.

Lemma blocked_attempts_of_app (a b : list event) :
  blocked_attempts_of (a ++ b) = blocked_attempts_of a ++ blocked_attempts_of b.
Proof. unfold blocked_attempts_of. apply omap_app. Qed.

Section RetrySchedule.

Variables (cfg : Config) (fetch : nat → attempt_outcome) (url : string) (max_retries : nat).

(** What one call of [process_scrape_attempt] leaves in the trace. *)
Lemma scrape_attempt_trace (attempt : nat) :
  let run := process_scrape_attempt cfg fetch url attempt max_retries in
  blocked_attempts_of run.2 = (if blocked_at fetch attempt then [attempt] else [])
  ∧ sleeps_of run.2
    = match run.1 with
      | Some _ => []
      | None => if (attempt <? max_retries)%nat
                then [calculate_retry_delay cfg attempt] else []
      end.
Proof.
  unfold process_scrape_attempt, blocked_at.
  destruct (fetch attempt) as [[r|]|message]; cbn zeta.
  - unfold result_truthy. destruct (bool_decide (r = ∅)); cbn [negb andb].
    + destruct (attempt <? max_retries)%nat; done.
    + destruct (dict_has r "error") eqn:Herror; cbn [negb andb]; [|done].
      destruct (is_blocked_error r); destruct (attempt <? max_retries)%nat; done.
  - destruct (attempt <? max_retries)%nat; done.
  - destruct (max_retries <=? attempt)%nat eqn:Hlast; cbn [fst snd]; [done|].
    apply Nat.leb_gt in Hlast. by rewrite (proj2 (Nat.ltb_lt _ _) Hlast).
Qed.

Lemma retry_loop_makes_an_attempt (remaining attempt : nat) :
  (0 < remaining)%nat →
  (0 < count_attempts (retry_loop cfg fetch url max_retries remaining attempt).2)%nat.
Proof.
  destruct remaining as [|remaining]; [lia|]. intros _. simpl.
  pose proof (scrape_attempt_counts_one cfg fetch url max_retries attempt) as Hone.
  destruct (process_scrape_attempt cfg fetch url attempt max_retries)
    as [[r|] events]; cbn [snd] in *; [lia|].
  destruct (retry_loop cfg fetch url max_retries remaining (S attempt)) as [r later].
  cbn [snd]. rewrite count_attempts_app. lia.
Qed.

Lemma retry_loop_schedule (remaining attempt : nat) :
  (attempt + remaining = S max_retries)%nat →
  let events := (retry_loop cfg fetch url max_retries remaining attempt).2 in
  sleeps_of events
  = map (calculate_retry_delay cfg) (seq attempt (count_attempts events - 1))
  ∧ blocked_attempts_of events
    = List.filter (blocked_at fetch) (seq attempt (count_attempts events)).
Proof.
  revert attempt. induction remaining as [|remaining IH]; intros attempt Hsum; [done|].
  cbn zeta. simpl retry_loop.
  pose proof (scrape_attempt_counts_one cfg fetch url max_retries attempt) as Hone.
  destruct (scrape_attempt_trace attempt) as [Hblocked Hsleeps]. cbn zeta in *.
  destruct (process_scrape_attempt cfg fetch url attempt max_retries)
    as [[r|] events]; cbn [fst snd] in *.
  - rewrite Hone, Hsleeps, Hblocked. simpl. by destruct (blocked_at fetch attempt).
  - destruct remaining as [|remaining].
    + simpl retry_loop. cbn [snd]. rewrite app_nil_r, Hone, Hsleeps, Hblocked.
      assert (attempt = max_retries) as -> by lia. rewrite Nat.ltb_irrefl.
      simpl. by destruct (blocked_at fetch max_retries).
    + pose proof (retry_loop_makes_an_attempt (S remaining) (S attempt) ltac:(lia)) as Hsome.
      destruct (IH (S attempt) ltac:(lia)) as [IHsleeps IHblocked]. cbn zeta in *.
      destruct (retry_loop cfg fetch url max_retries (S remaining) (S attempt))
        as [r later]. cbn [snd] in *.
      rewrite sleeps_of_app, blocked_attempts_of_app, count_attempts_app, Hone.
      rewrite Hsleeps, Hblocked, IHsleeps, IHblocked.
      rewrite (proj2 (Nat.ltb_lt attempt max_retries)) by lia.
      replace (1 + count_attempts later - 1)%nat with (S (count_attempts later - 1)) by lia.
      split; [done|]. simpl. by destruct (blocked_at fetch attempt).
Qed.

End RetrySchedule.

(** X19. [process_url] sleeps between the attempts and nowhere else: when it
    has made [n] attempts it has slept [n - 1] times, and the delays are those
    of [calculate_retry_delay] for the attempts [0] to [n - 2], in order. *)
Theorem process_url_sleeps_between_attempts (cfg : Config) (env : fetch_env) (url : string) :
  let events := (process_url cfg env url).2 in
  sleeps_of events
  = map (calculate_retry_delay cfg) (seq 0 (count_attempts events - 1)).
Proof.
  unfold process_url. destruct (compliant env); [|done]. cbn [negb].
  destruct (retry_loop_schedule cfg (fetcher env) url (MAX_RETRIES cfg)
              (S (MAX_RETRIES cfg)) 0 eq_refl) as [Hsleeps _]. cbn zeta in Hsleeps.
  destruct (retry_loop cfg (fetcher env) url (MAX_RETRIES cfg) (S (MAX_RETRIES cfg)) 0)
    as [r events]. cbn [snd] in Hsleeps.
  destruct (browser_supplied env); [done|].
  destruct (close_error env); cbn [snd];
    rewrite sleeps_of_app, count_attempts_app, Hsleeps;
    change (count_attempts [EvCloseBrowser]) with 0%nat;
    change (sleeps_of [EvCloseBrowser]) with (@nil Q);
    by rewrite app_nil_r, Nat.add_0_r.
Qed.

(** X20. [process_url] handles a block (reports the proxy, rotates the
    fingerprint) after exactly those of its attempts whose result is a dict
    that is not empty and whose [error] text holds 403 or 429, in the order
    of the attempts. *)
Theorem process_url_rotates_after_each_block (cfg : Config) (env : fetch_env) (url : string) :
  let events := (process_url cfg env url).2 in
  blocked_attempts_of events
  = List.filter (blocked_at (fetcher env)) (seq 0 (count_attempts events)).
Proof.
  unfold process_url. destruct (compliant env); [|done]. cbn [negb].
  destruct (retry_loop_schedule cfg (fetcher env) url (MAX_RETRIES cfg)
              (S (MAX_RETRIES cfg)) 0 eq_refl) as [_ Hblocked]. cbn zeta in Hblocked.
  destruct (retry_loop cfg (fetcher env) url (MAX_RETRIES cfg) (S (MAX_RETRIES cfg)) 0)
    as [r events]. cbn [snd] in Hblocked.
  destruct (browser_supplied env); [done|].
  destruct (close_error env); cbn [snd];
    rewrite blocked_attempts_of_app, count_attempts_app, Hblocked;
    change (count_attempts [EvCloseBrowser]) with 0%nat;
    change (blocked_attempts_of [EvCloseBrowser]) with (@nil nat);
    by rewrite app_nil_r, Nat.add_0_r.
Qed.

(** ** URLProcessor: one scrape *)

Lemma count_events_app (f : scrape_event → bool) (a b : list scrape_event) :
  count_events f (a ++ b) = (count_events f a + count_events f b)%nat.
Proof. unfold count_events. by rewrite List.filter_app, length_app. Qed.

(** What the listing path and the search path leave in the trace: no page
    is opened or closed inside, the proxy is reported once when the path
    returns and not at all when it raises, and the save callback gets at
    most one record. *)
Lemma scrape_paths_trace (p : processor) (env : scrape_env) (url : string)
    (out : attempt_outcome) (inside : list scrape_event) :
  scrape_listing_path p env = (out, inside) ∨ scrape_search_path p env url = (out, inside) →
  count_events is_close_event inside = 0%nat
  ∧ count_events is_create_event inside = 0%nat
  ∧ count_events is_mark_success_event inside
    = (match out with Yields _ => 1 | Throws _ => 0 end)%nat
  ∧ (count_events is_save_event inside ≤ 1)%nat.
Proof.
  unfold scrape_listing_path, scrape_search_path. intros [Hpath|Hpath].
  - destruct (listing_outcome env) as [[r|]|message];
      [|simplify_eq; cbv; lia..].
    destruct (result_truthy (Some r) && negb (dict_has r "error") && has_save_callback p);
      [|simplify_eq; cbv; lia].
    destruct (save_error env); simplify_eq; cbv; lia.
  - destruct (search_outcome env) as [[|listing listings]|message];
      [simplify_eq; cbv; lia| |simplify_eq; cbv; lia].
    destruct (deep_outcome env); simplify_eq; cbv; lia.
Qed.

(** The path [attempt_scrape] takes inside its [try] block. *)
Lemma attempt_scrape_inside (p : processor) (env : scrape_env) (url : string) :
  ∃ out inside,
    (scrape_listing_path p env = (out, inside)
     ∨ scrape_search_path p env url = (out, inside))
    ∧ (if deep_search_only p then scrape_listing_path p env
       else if is_search_url url then scrape_search_path p env url
            else scrape_listing_path p env) = (out, inside).
Proof.
  destruct (deep_search_only p); [|destruct (is_search_url url)].
  - destruct (scrape_listing_path p env) as [out inside] eqn:Hpath. eauto.
  - destruct (scrape_search_path p env url) as [out inside] eqn:Hpath. eauto.
  - destruct (scrape_listing_path p env) as [out inside] eqn:Hpath. eauto.
Qed.

(** X21. [attempt_scrape] closes the page it created exactly once, as its
    last step, on every path, also when the scrape or the save raises; it
    closes nothing when no page was created, and then it raises. It reports
    the proxy as successful once when it returns and not at all when it
    raises. *)
Theorem attempt_scrape_closes_its_page (p : processor) (env : scrape_env) (url : string) :
  let run := attempt_scrape p env url in
  let page_created :=
    (context_ready env || bool_decide (initialize_error env = None))
    && bool_decide (create_page_error env = None) in
  count_events is_close_event run.2 = (if page_created then 1 else 0)%nat
  ∧ (page_created = true → last run.2 = Some EvClosePage)
  ∧ count_events is_mark_success_event run.2
    = (match run.1 with Yields _ => 1 | Throws _ => 0 end)%nat
  ∧ (page_created = false → ∃ message, run.1 = Throws message).
Proof.
  cbn zeta. unfold attempt_scrape.
  destruct (attempt_scrape_inside p env url) as (out & inside & Hpath & ->).
  destruct (scrape_paths_trace p env url out inside Hpath)
    as (Hclose & _ & Hmark & _).
  set (started := if context_ready env then _ else _).
  assert ((started = inr (default EmptyString (initialize_error env), [EvInitialize])
           ∧ context_ready env || bool_decide (initialize_error env = None) = false)
          ∨ (∃ events, started = inl events
                       ∧ count_events is_close_event events = 0%nat
                       ∧ count_events is_mark_success_event events = 0%nat
                       ∧ context_ready env || bool_decide (initialize_error env = None)
                         = true)) as [[-> ->]|(events & -> & Hc & Hm & ->)].
  { subst started. destruct (context_ready env); [right; by exists []|].
    destruct (initialize_error env); [by left|right; by exists [EvInitialize]]. }
  { cbn [andb fst snd]. repeat split; [done|eauto]. }
  cbn [andb]. destruct (create_page_error env) as [message|]; cbn [fst snd].
  - rewrite bool_decide_eq_false_2 by done. rewrite !count_events_app, Hc, Hm.
    repeat split; [done|eauto].
  - rewrite bool_decide_eq_true_2 by done.
    rewrite !count_events_app, Hc, Hm, Hclose, Hmark.
    split; [done|]. split; [|split; [by destruct out|done]].
    intros _. by rewrite !app_assoc, last_snoc.
Qed.





(** X23. What [attempt_scrape] returns for a search URL is always a success
    for [process_scrape_attempt] (a dict that is not empty, without [error]
    key), so the page is not fetched again, and [_update_stats_from_result]
    adds the number of its listings to the successes: nothing for a page
    without listings. *)
Theorem search_page_counts_its_listings (p : processor) (env : scrape_env)
    (url : string) (result : option record) (st : stats) :
  deep_search_only p = false → is_search_url url = true →
  (attempt_scrape p env url).1 = Yields result →
  ∃ listings,
    result = Some (search_record url listings)
    ∧ attempt_succeeds (Yields result) = true
    ∧ _update_stats_from_result st result
      = Some (MkStats (total st) (success st + length listings) (failed st) (blocked st)
                      (skipped st)).
Proof.
  intros Hmode Hsearch. unfold attempt_scrape. rewrite Hmode, Hsearch.
  assert (∀ out, (scrape_search_path p env url).1 = out → out = Yields result →
            ∃ listings, result = Some (search_record url listings)) as Hshape.
  { unfold scrape_search_path. intros out <-.
    destruct (search_outcome env) as [[|listing listings]|message]; cbn [fst];
      [intros [= <-]; eauto|  |done].
    destruct (deep_outcome env) as [deep|]; cbn [fst]; [intros [= <-]; eauto|done]. }
  intros Hrun.
  destruct (Hshape (scrape_search_path p env url).1 eq_refl) as [listings ->].
  { destruct (scrape_search_path p env url) as [out inside]. cbn [fst] in *.
    destruct (context_ready env); [|destruct (initialize_error env)];
      cbn [fst] in Hrun; try done;
      by destruct (create_page_error env). }
  exists listings. split; [done|]. split; [by vm_compute|].
  unfold _update_stats_from_result, search_record.
  assert (dict_has (<["url" := VStr url]>
                      (<["listings" := VList listings]>
                         (<["type" := VStr "search_results"]> ∅))) "error" = false) as ->.
  { by vm_compute. }
  assert (is_search_results (<["url" := VStr url]>
                      (<["listings" := VList listings]>
                         (<["type" := VStr "search_results"]> ∅))) = true) as ->.
  { by vm_compute. }
  done.
Qed.

(** ** PipelineOrchestrator: what a run counts and returns *)

Lemma tally_gathered_plain (st st' : stats) (g : gathered) :
  tally_gathered st g = Some st' → is_search_page g = false →
  counted st' = S (counted st) ∧ total st' = total st.
Proof.
  unfold tally_gathered, is_search_page, _update_stats_from_result, counted.
  destruct g as [message|[r|]]; [intros [= <-] _; simpl; lia| |intros [= <-] _; simpl; lia].
  destruct (dict_has r "error"); cbn [negb andb].
  - destruct (_ || _); intros [= <-] _; simpl; lia.
  - intros Hst Hplain. rewrite Hplain in Hst. injection Hst as <-. simpl. lia.
Qed.

(** X24. In a concurrent run that meets no search page, every gathered
    outcome raises exactly one of the counters [success], [failed], [blocked]
    and [skipped] by one, and [total] is left alone. *)
Theorem every_outcome_is_counted_once (outcomes : list gathered) (st st' : stats) :
  tally_all_gathered st outcomes = Some st' →
  Forall (λ g, is_search_page g = false) outcomes →
  counted st' = (counted st + length outcomes)%nat ∧ total st' = total st.
Proof.
  intros Hrun Hplain. revert st Hrun.
  induction Hplain as [|g rest Hg _ IH]; intros st; simpl.
  - intros [= <-]. lia.
  - destruct (tally_gathered st g) as [next|] eqn:Hstep; [|done].
    intros Hrest. destruct (IH _ Hrest) as [Hcount Htotal].
    destruct (tally_gathered_plain _ _ _ Hstep Hg) as [Hone Hsame]. lia.
Qed.

Lemma tally_gathered_skipped (st st' : stats) (g : gathered) :
  tally_gathered st g = Some st' →
  skipped st' = (skipped st + match g with GatheredResult None => 1 | _ => 0 end)%nat.
Proof.
  unfold tally_gathered, _update_stats_from_result.
  destruct g as [message|[r|]]; [intros [= <-]; simpl; lia| |intros [= <-]; simpl; lia].
  repeat case_match; intros [= <-]; simpl; lia.
Qed.

(** X25. The results a concurrent run returns are its outcomes without the
    skipped ones: the number of results and the number of skips counted add
    up to the number of URLs. *)
Theorem results_are_the_outcomes_not_skipped (urls : list string)
    (outcomes : list gathered) (st st' : stats) :
  length urls = length outcomes →
  tally_all_gathered st outcomes = Some st' →
  (length (filtered_results urls outcomes) + skipped st'
   = length outcomes + skipped st)%nat.
Proof.
  unfold filtered_results. revert urls st.
  induction outcomes as [|g rest IH]; intros urls st Hlen; simpl.
  - intros [= <-]. by destruct urls.
  - destruct urls as [|url urls]; [done|]. injection Hlen as Hlen.
    destruct (tally_gathered st g) as [next|] eqn:Hstep; [|done].
    intros Hrest. specialize (IH urls next Hlen Hrest).
    apply tally_gathered_skipped in Hstep.
    set (later := omap _ (zip urls rest)) in *.
    assert (omap (λ item : string * gathered, gathered_result item.1 item.2)
                 (zip (url :: urls) (g :: rest))
            = option_list (gathered_result url g) ++ later) as ->.
    { subst later. simpl. by destruct (gathered_result url g). }
    rewrite length_app. destruct g as [message|[r|]]; simpl in *; lia.
Qed.

(** X26. The loop over one shared browser and the concurrent loop count an
    outcome in the same way: an exception as a failure, None as a skip, a
    dict that is not empty through [_update_stats_from_result]. They differ
    on the empty dict, which the concurrent loop counts as a success and the
    sequential loop as a skip. *)
Theorem both_modes_count_alike (st : stats) :
  (∀ message,
     tally_gathered st (GatheredException message)
     = Some (tally_sequential st (UrlRaises message)))
  ∧ tally_gathered st (GatheredResult None) = Some (tally_sequential st (UrlReturns None))
  ∧ (∀ r st', r ≠ ∅ → tally_gathered st (GatheredResult (Some r)) = Some st' →
              tally_sequential st (UrlReturns (Some r)) = st')
  ∧ tally_gathered st (GatheredResult (Some ∅))
    = Some (MkStats (total st) (S (success st)) (failed st) (blocked st) (skipped st))
  ∧ tally_sequential st (UrlReturns (Some ∅))
    = MkStats (total st) (success st) (failed st) (blocked st) (S (skipped st)).
Proof.
  split; [done|]. split; [done|]. split; [|split; by vm_compute].
  intros r st' Hne Hst. unfold tally_sequential, tally_gathered, result_truthy in *.
  rewrite bool_decide_eq_false_2 by done. cbn [negb]. by rewrite Hst.
Qed.

(** ** ImageDownloader: the list of image URLs from the store *)

Lemma str_append_assoc (a b c : string) : (a +:+ b) +:+ c = a +:+ b +:+ c.
Proof. induction a as [|x a IH]; [done|]. by rewrite !str_append_cons, IH. Qed.

Lemma contains_comma_cons (c : ascii) (s : string) :
  PyStr.contains "," (String c s) = bool_decide (c = comma) || PyStr.contains "," s.
Proof.
  cbn [PyStr.contains PyStr.startswith]. f_equal.
  case_decide as Hc; case_bool_decide as Hc'; try done; by subst.
Qed.

Lemma split_on_comma_free (s : string) :
  PyStr.contains "," s = false → split_on comma s = [s].
Proof.
  induction s as [|c s IH]; [done|]. rewrite contains_comma_cons.
  intros Hfree. apply orb_false_iff in Hfree as [Hc Hs].
  apply bool_decide_eq_false in Hc. cbn [split_on]. rewrite decide_False by done.
  by rewrite IH.
Qed.

Lemma split_on_comma_app (a b : string) :
  PyStr.contains "," a = false →
  split_on comma (a +:+ String comma b) = a :: split_on comma b.
Proof.
  induction a as [|c a IH]; intros Hfree.
  - change (EmptyString +:+ String comma b) with (String comma b).
    cbn [split_on]. by rewrite decide_True.
  - rewrite contains_comma_cons in Hfree. apply orb_false_iff in Hfree as [Hc Ha].
    apply bool_decide_eq_false in Hc. rewrite str_append_cons. cbn [split_on].
    rewrite decide_False by done. by rewrite IH.
Qed.

Lemma contains_comma_app (a b : string) :
  PyStr.contains "," (a +:+ b) = PyStr.contains "," a || PyStr.contains "," b.
Proof.
  induction a as [|c a IH].
  - change (EmptyString +:+ b) with b. cbn. by destruct b.
  - by rewrite str_append_cons, !contains_comma_cons, IH, orb_assoc.
Qed.

Lemma split_joined (items : list string) (pre first : string) :
  PyStr.contains "," pre = false →
  Forall (λ item, PyStr.contains "," item = false) (first :: items) →
  split_on comma (pre +:+ PyStr.join ", " (first :: items))
  = (pre +:+ first) :: map (λ item, " " +:+ item) items.
Proof.
  revert pre first. induction items as [|second items IH]; intros pre first Hpre Hfree.
  - apply Forall_cons in Hfree as [Hfirst _]. cbn [PyStr.join map].
    apply split_on_comma_free. by rewrite contains_comma_app, Hpre, Hfirst.
  - apply Forall_cons in Hfree as [Hfirst Hrest].
    change (PyStr.join ", " (first :: second :: items))
      with (first +:+ ", " +:+ PyStr.join ", " (second :: items)).
    rewrite <- str_append_assoc.
    change (", " +:+ PyStr.join ", " (second :: items))
      with (String comma (" " +:+ PyStr.join ", " (second :: items))).
    rewrite split_on_comma_app by by rewrite contains_comma_app, Hpre, Hfirst.
    by rewrite (IH " " second).
Qed.

Lemma strip_after_space (s : string) : PyStr.strip (" " +:+ s) = PyStr.strip s.
Proof. done. Qed.

Lemma py_str_of_strs (texts : list string) : map py_str (VStr <$> texts) = texts.
Proof.
  induction texts as [|text texts IH]; [done|].
  rewrite fmap_cons. cbn [map py_str]. by rewrite IH.
Qed.

(** X27. A list of image URLs that went through [convert_result_to_row] is
    recovered by [_normalize_images_list] from the text in the store, when no
    URL is empty, has a comma, or has white space at its ends. *)
Theorem image_list_survives_the_store (urls : list string) :
  urls ≠ [] →
  Forall (λ url, url ≠ EmptyString ∧ PyStr.strip url = url
                 ∧ PyStr.contains "," url = false) urls →
  _normalize_images_list (convert_value (VList (VStr <$> urls))) = urls.
Proof.
  intros Hne Hurls. destruct urls as [|first rest]; [done|].
  assert (convert_value (VList (VStr <$> first :: rest))
          = VStr (PyStr.join ", " (first :: rest))) as ->.
  { change (VStr <$> first :: rest) with (VStr first :: (VStr <$> rest)).
    cbn [convert_value]. do 2 f_equal. apply (py_str_of_strs (first :: rest)). }
  assert (Forall (λ item, PyStr.contains "," item = false) (first :: rest)) as Hfree.
  { eapply Forall_impl; [exact Hurls|]. by intros url (_ & _ & ?). }
  pose proof (split_joined rest EmptyString first eq_refl Hfree) as Hsplit.
  change (EmptyString +:+ PyStr.join ", " (first :: rest))
    with (PyStr.join ", " (first :: rest)) in Hsplit.
  change (EmptyString +:+ first) with first in Hsplit.
  unfold _normalize_images_list.
  assert (py_truthy (VStr (PyStr.join ", " (first :: rest))) = true) as ->.
  { apply Forall_cons in Hurls as [(Hfirst & _) _].
    destruct first as [|c first]; [done|]. by destruct rest. }
  cbn [negb]. rewrite Hsplit. clear Hsplit Hfree Hne.
  assert (∀ texts, Forall (λ url, url ≠ EmptyString ∧ PyStr.strip url = url
                                  ∧ PyStr.contains "," url = false) texts →
            List.filter (λ img, negb (PyStr.is_empty img)) (map PyStr.strip texts) = texts)
    as Hclean.
  { induction 1 as [|text texts (Hfull & Hstripped & _) _ IH]; [done|].
    cbn [map List.filter]. rewrite Hstripped, IH. by destruct text. }
  transitivity (List.filter (λ img, negb (PyStr.is_empty img))
                            (map PyStr.strip (first :: rest))); [|by apply Hclean].
  cbn [map]. do 2 f_equal. rewrite map_map. apply map_ext. intros text.
  apply strip_after_space.
Qed.

Lemma image_list_survives_the_store_witness :
  _normalize_images_list
    (convert_value (VList [VStr "https://cdn.example/a.jpg"; VStr "https://cdn.example/b.png"]))
  = ["https://cdn.example/a.jpg"; "https://cdn.example/b.png"].
Proof.
  apply (image_list_survives_the_store
           ["https://cdn.example/a.jpg"; "https://cdn.example/b.png"]); [done|].
  repeat constructor; try done; vm_compute; reflexivity.
Defined.

Lemma read_rows_follow_the_header_witness :
  _detect_has_headers (first_line_of [["price"; "url"]; ["100"; "A"]; [" "; EmptyString]]) = true
  ∧ (_read_existing_data is_valid_fieldname false
       (Some [["price"; "url"]; ["100"; "A"]; [" "; EmptyString]])).2 = ["price"; "url"]
  ∧ ∀ key row,
      (_read_existing_data is_valid_fieldname false
         (Some [["price"; "url"]; ["100"; "A"]; [" "; EmptyString]])).1 !! key = Some row →
      dom row = ({["price"; "url"]} : gset string) ∧ is_empty_row row = false.
Proof.
  assert (_detect_has_headers
            (first_line_of [["price"; "url"]; ["100"; "A"]; [" "; EmptyString]]) = true)
    as Hheader by (vm_compute; reflexivity).
  split; [exact Hheader|].
  destruct (read_rows_follow_the_header is_valid_fieldname ["price"; "url"]
              [["100"; "A"]; [" "; EmptyString]] Hheader) as [Hfields Hrows].
  split; [exact Hfields|]. intros key row Hrow.
  destruct (Hrows key row Hrow) as (Hdom & Hfull & _). split; [|exact Hfull].
  rewrite Hdom, Hfields. vm_compute. reflexivity.
Defined.

Lemma save_page_listings_fits_header_witness :
  save_page_listings is_valid_fieldname io_quiet (Some file_with_one_row)
    [<["url" := VStr "B"]> ∅; record_with_price]
  = (Returned, Some [["price"; "url"]; ["100"; "A"]; [EmptyString; "B"]; ["100"; "A"]]).
Proof.
  rewrite (save_page_listings_fits_header is_valid_fieldname io_quiet ["price"; "url"]
             [["100"; "A"]] [<["url" := VStr "B"]> ∅; record_with_price]).
  - vm_compute. reflexivity.
  - done.
  - reflexivity.
  - reflexivity.
  - repeat constructor; vm_compute; exact I.
  - apply (bool_decide_unpack _). vm_compute. exact I.
  - repeat constructor.
  - intros f Hf. vm_compute in Hf. exact Hf.
Defined.

Lemma save_page_listings_outgrows_header_witness :
  ∃ appended,
    save_page_listings is_valid_fieldname io_quiet (Some [["url"]; ["B"]]) [record_with_price]
    = (Returned, Some ([["url"]; ["B"]] ++ appended))
    ∧ length appended = 1%nat
    ∧ Forall (λ row, (1 < length row)%nat) appended.
Proof.
  apply (save_page_listings_outgrows_header is_valid_fieldname io_quiet ["url"] [["B"]]
           [record_with_price] "price").
  - reflexivity.
  - reflexivity.
  - apply (bool_decide_unpack _). vm_compute. exact I.
  - repeat constructor.
  - vm_compute. left.
  - apply (bool_decide_unpack _). vm_compute. exact I.
Defined.

Lemma save_results_ignores_previous_file_witness :
  save_results is_valid_fieldname io_quiet (Some file_with_one_row) [<["url" := VStr "B"]> ∅]
  = (Returned, Some [["url"]; ["B"]]).
Proof.
  rewrite (save_results_ignores_previous_file is_valid_fieldname io_quiet
             (Some file_with_one_row) [<["url" := VStr "B"]> ∅]).
  - vm_compute. reflexivity.
  - done.
  - reflexivity.
  - repeat constructor.
Defined.

Lemma missing_urls_are_unenriched_listings_witness :
  "https://www.zapimoveis.com.br/imovel/casa-id-1/"
    ∈ Main.get_missing_deep_search_urls
        (Some [["iptu"; "url"];
               ["R$ 10"; "https://www.zapimoveis.com.br/venda/"];
               [EmptyString; " https://www.zapimoveis.com.br/imovel/casa-id-1/ "]])
  ∧ Main.is_listing_url "https://www.zapimoveis.com.br/imovel/casa-id-1/" = true.
Proof.
  assert ("https://www.zapimoveis.com.br/imovel/casa-id-1/"
            ∈ Main.get_missing_deep_search_urls
                (Some [["iptu"; "url"];
                       ["R$ 10"; "https://www.zapimoveis.com.br/venda/"];
                       [EmptyString; " https://www.zapimoveis.com.br/imovel/casa-id-1/ "]]))
    as Hin by (vm_compute; left).
  split; [exact Hin|].
  exact (proj1 (missing_urls_are_unenriched_listings _ _ Hin)).
Defined.

Lemma short_row_hides_every_missing_url_witness :
  Main.get_missing_deep_search_urls
    (Some [["price"; "url"]; ["100"; "https://www.zapimoveis.com.br/imovel/casa-id-1/"]])
  = ["https://www.zapimoveis.com.br/imovel/casa-id-1/"]
  ∧ Main.get_missing_deep_search_urls
      (Some [["price"; "url"]; ["100"; "https://www.zapimoveis.com.br/imovel/casa-id-1/"];
             ["200"]])
    = [].
Proof.
  split; [vm_compute; reflexivity|].
  apply (short_row_hides_every_missing_url ["price"; "url"] _ ["200"]).
  - right. left.
  - done.
  - vm_compute. reflexivity.
Defined.

Lemma search_page_counts_its_listings_witness :
  ∃ listings,
    Some (search_record "https://www.zapimoveis.com.br/venda/" []) = Some (search_record
        "https://www.zapimoveis.com.br/venda/" listings)
    ∧ attempt_succeeds (Yields (Some (search_record "https://www.zapimoveis.com.br/venda/" [])))
      = true
    ∧ _update_stats_from_result stats_zero
        (Some (search_record "https://www.zapimoveis.com.br/venda/" []))
      = Some (MkStats 0 (0 + length listings) 0 0 0).
Proof.
  apply (search_page_counts_its_listings (Processor false true true true)
           (ScrapeEnv true None None (Yields None) (inl []) (inl []) None)
           "https://www.zapimoveis.com.br/venda/" _ stats_zero).
  - reflexivity.
  - vm_compute. reflexivity.
  - vm_compute. reflexivity.
Defined.

Lemma every_outcome_is_counted_once_witness :
  tally_all_gathered stats_zero
    [GatheredResult (Some error_403); GatheredException "boom"; GatheredResult None;
     GatheredResult (Some record_with_price)]
  = Some (MkStats 0 1 1 1 1)
  ∧ counted (MkStats 0 1 1 1 1) = (counted stats_zero + 4)%nat.
Proof.
  assert (tally_all_gathered stats_zero
            [GatheredResult (Some error_403); GatheredException "boom"; GatheredResult None;
             GatheredResult (Some record_with_price)]
          = Some (MkStats 0 1 1 1 1)) as Hrun by (vm_compute; reflexivity).
  split; [exact Hrun|].
  refine (proj1 (every_outcome_is_counted_once _ _ _ Hrun _)).
  repeat constructor.
Defined.

Lemma results_are_the_outcomes_not_skipped_witness :
  (length (filtered_results ["u1"; "u2"; "u3"; "u4"] gathered_sample) + 1 = 4 + 0)%nat.
Proof.
  apply (results_are_the_outcomes_not_skipped ["u1"; "u2"; "u3"; "u4"] gathered_sample
           stats_zero (MkStats 0 2 1 1 1)).
  - reflexivity.
  - vm_compute. reflexivity.
Defined.

(** ** Substrings under [strip] and [lower] *)

Lemma str_append_nil_r (s : string) : s +:+ EmptyString = s.
Proof. induction s as [|c s IH]; [done|]. by rewrite str_append_cons, IH. Qed.

Lemma str_rev_app_append (a b : string) : String.rev_app a b = String.rev a +:+ b.
Proof.
  revert b. induction a as [|c a IH]; intros b; [done|].
  unfold String.rev. cbn [String.rev_app]. rewrite (IH (String c b)), (IH (String c EmptyString)).
  by rewrite str_append_assoc.
Qed.

Lemma str_rev_cons (c : ascii) (a : string) :
  String.rev (String c a) = String.rev a +:+ String c EmptyString.
Proof. unfold String.rev at 1. cbn [String.rev_app]. apply str_rev_app_append. Qed.

Lemma str_rev_append (a b : string) : String.rev (a +:+ b) = String.rev b +:+ String.rev a.
Proof.
  induction a as [|c a IH].
  - change (EmptyString +:+ b) with b. by rewrite str_append_nil_r.
  - by rewrite str_append_cons, !str_rev_cons, IH, str_append_assoc.
Qed.

Lemma str_rev_involutive (a : string) : String.rev (String.rev a) = a.
Proof.
  induction a as [|c a IH]; [done|]. by rewrite str_rev_cons, str_rev_append, IH.
Qed.

Lemma contains_split (p s : string) :
  PyStr.contains p s = true ↔ ∃ a b, s = a +:+ p +:+ b.
Proof.
  split.
  - induction s as [|c s IH].
    + cbn [PyStr.contains]. rewrite orb_false_r. intros Hstart.
      exists EmptyString, (PyStr.drop (String.length p) EmptyString).
      by apply startswith_split.
    + cbn [PyStr.contains]. intros Hhas. apply orb_true_iff in Hhas as [Hstart|Hrest].
      * exists EmptyString, (PyStr.drop (String.length p) (String c s)).
        by apply startswith_split.
      * destruct (IH Hrest) as (a & b & ->). by exists (String c a), b.
  - intros (a & b & ->). induction a as [|c a IH].
    + change (EmptyString +:+ p +:+ b) with (p +:+ b).
      destruct (p +:+ b) eqn:Hpb; cbn [PyStr.contains]; rewrite <- Hpb, startswith_app; done.
    + rewrite str_append_cons. cbn [PyStr.contains]. by rewrite IH, orb_true_r.
Qed.

Lemma lstrip_keeps (a r : string) (c : ascii) :
  PyStr.is_space c = false → ∃ a', PyStr.lstrip (a +:+ String c r) = a' +:+ String c r.
Proof.
  intros Hc. induction a as [|x a IH].
  - exists EmptyString. change (EmptyString +:+ String c r) with (String c r).
    cbn [PyStr.lstrip]. by rewrite Hc.
  - rewrite str_append_cons. cbn [PyStr.lstrip]. destruct (PyStr.is_space x); [done|].
    by exists (String x a).
Qed.

Lemma lower_append (a b : string) : PyStr.lower (a +:+ b) = PyStr.lower a +:+ PyStr.lower b.
Proof.
  induction a as [|c a IH]; [done|]. rewrite !str_append_cons. cbn [PyStr.lower].
  by rewrite str_append_cons, IH.
Qed.

(** A needle that neither starts nor ends with white space, and that
    [lower] leaves alone, is still found after [strip] and [lower]. *)
Lemma contains_lower_strip (p p' q s : string) (c d : ascii) :
  p = String c p' → PyStr.is_space c = false →
  String.rev p = String d q → PyStr.is_space d = false →
  PyStr.lower p = p →
  PyStr.contains p s = true → PyStr.contains p (PyStr.lower (PyStr.strip s)) = true.
Proof.
  intros Hp Hc Hrev Hd Hlower Hhas.
  apply contains_split in Hhas as (a & b & ->). apply contains_split.
  unfold PyStr.strip, PyStr.rstrip.
  destruct (lstrip_keeps a (p' +:+ b) c Hc) as [a' Hleft].
  rewrite Hp, str_append_cons, Hleft, <- str_append_cons, <- Hp.
  rewrite !str_rev_append, Hrev, str_append_assoc, str_append_cons.
  destruct (lstrip_keeps (String.rev b) (q +:+ String.rev a') d Hd) as [b' ->].
  rewrite str_rev_append, <- str_append_cons, <- Hrev, str_rev_append, !str_rev_involutive.
  rewrite str_append_assoc, !lower_append, Hlower. eauto.
Qed.

(** X28. No URL that [is_listing_url] of the command line accepts is a
    search URL for [is_search_url] of the processor. *)
Theorem listing_urls_are_not_search_urls (url : string) :
  Main.is_listing_url url = true → is_search_url url = false.
Proof.
  unfold Main.is_listing_url, is_search_url. cbn [existsb].
  rewrite !orb_false_r. destruct (PyStr.contains "/venda/" url) eqn:Hsearch; [|done].
  rewrite (contains_lower_strip "/venda/" "venda/" "adnev/" url "/" "/") by done.
  cbn [orb negb]. by repeat case_match.
Qed.

Lemma listing_urls_are_not_search_urls_witness :
  Main.is_listing_url " HTTPS://www.ZapImoveis.com.br/imovel/casa-id-1/ " = true
  ∧ is_search_url " HTTPS://www.ZapImoveis.com.br/imovel/casa-id-1/ " = false.
Proof.
  assert (Main.is_listing_url " HTTPS://www.ZapImoveis.com.br/imovel/casa-id-1/ " = true)
    as Hlisting by (vm_compute; reflexivity).
  split; [exact Hlisting|]. exact (listing_urls_are_not_search_urls _ Hlisting).
Defined.

(** ** Writing, then reading *)




